(** * WATcher: card view and layout header

    A shallow embedding of the two Angular components
    [src/app/issues-viewer/card-view/card-view.component.ts] and
    [src/app/shared/layout/header.component.ts].

    Both components are callback driven: a method runs to completion,
    registers callbacks with an RxJS observable, a dialog or a timer, and
    the callbacks run later, one at a time, on the single JavaScript
    thread.  Each component is therefore modelled as a transition system
    over an explicit world: the component's fields, the state of the
    injected services the component reads, the callbacks that are still
    registered, and a trace that lists, in program order, every field
    assignment and every call to a collaborator. *)

From Stdlib Require Import ZArith NArith Lia List.
From stdpp Require Import base gmap list strings.

Local Open Scope string_scope.
Local Open Scope list_scope.
Local Open Scope Z_scope.

(** * Shared vocabulary *)

(** Subscriptions, dialogs and timers are identified by the order in
    which they were created. *)
Definition handle := nat.

(** A DOM event object, identified by a token; the components only ever
    call [stopPropagation] on it. *)
Definition Event := nat.

(** A JavaScript error value. *)
Definition error := string.

(** What an RxJS observable can deliver to a subscriber. *)
Inductive notification (A : Type) : Type :=
| Next (a : A)
| Error (e : error)
| Complete.
Arguments Next {A} a.
Arguments Error {A} e.
Arguments Complete {A}.

(** [Error] and [Complete] end the stream: they are its resolution. *)
Definition is_terminal {A : Type} (n : notification A) : bool :=
  match n with
  | Next _ => false
  | Error _ | Complete => true
  end.

(** Values of the string enum [Phase] (declared in
    [core/models/phase.model], outside the two components).  [None] is
    JavaScript's [undefined]. *)
Definition Phase := option string.

(** The result a confirmation dialog closes with: [Some true] for the
    "yes" button, [Some false] for "no", [None] ([undefined]) when the
    dialog is dismissed.  [truthy] is the test of [if (res)]. *)
Definition truthy (res : option bool) : bool :=
  match res with
  | Some true => true
  | _ => false
  end.

(** Number of elements of a list that satisfy a boolean test. *)
Definition occurrences {A : Type} (p : A -> bool) (l : list A) : nat :=
  length (List.filter p l).

(** * JavaScript strings *)

Module Text.

(** A JavaScript string is a sequence of UTF-16 code units. *)
Definition code_unit := N.
Definition js_string := list code_unit.

(** [String.prototype.slice(start, end)]: negative positions count from
    the end, positions are clamped to the string. *)
Definition clamp (len pos : Z) : Z :=
  if pos <? 0 then Z.max (len + pos) 0 else Z.min pos len.

Definition slice (s : js_string) (start finish : Z) : js_string :=
  let len := Z.of_nat (length s) in
  let from := clamp len start in
  let to := clamp len finish in
  let span := Z.max (to - from) 0 in
  firstn (Z.to_nat span) (skipn (Z.to_nat from) s).

Definition MAX_CHARACTER_LENGTH : Z := 72.

(** The literal ['...'] : three full stops (U+002E). *)
Definition ELLIPSES : js_string := [46; 46; 46]%N.

(** [fitDescriptionText(description)] of the card view. *)
Definition fitDescriptionText (description : js_string) : js_string :=
  slice description 0 MAX_CHARACTER_LENGTH ++ ELLIPSES.

End Text.

(** * The card view component

    The model covers the status updates, the delete with its pending set
    and the delete dialog.  The data table ([issues], [issues$]) and the
    display helpers of the card touch none of the state these methods use
    and are left out; [fitDescriptionText] is in [Text]. *)

Module CardView.

(** [STATUS] of [core/models/issue.model]; the component uses these two
    members. *)
Inductive STATUS := Incomplete | Done.

(** The model class [Issue] is declared outside the component.  The
    component reads [id], writes [status]; all other attributes travel
    along untouched. *)
Record Issue := mkIssue {
  id : Z;
  status : STATUS;
  attributes : list (string * string)
}.

(** [issue.status = s] on a record the caller owns. *)
Definition with_status (s : STATUS) (i : Issue) : Issue :=
  mkIssue (id i) s (attributes i).

(** The closures handed to [subscribe], one constructor per call site,
    carrying the variables the closure captures. *)
Inductive subscriber :=
| UpdateIssueSubscriber
| DeleteIssueSubscriber (id : Z).

(** Field assignments and collaborator calls, in program order, together
    with two steps of the RxJS run time: a subscription is made
    ([Subscribe]), the callback given to [finalize] is run ([Finalize]).
    A log message is kept as the text before the number, the number, and
    the text after it. *)
Inductive action :=
| Logging_info (before : string) (n : Z) (after : string)
| Assign_issuesPendingDeletion (m : gmap Z bool)
| IssueService_updateIssue (newIssue : Issue)
| IssueService_updateLocalStore (updatedIssue : Issue)
| IssueService_deleteIssue (id : Z)
| Subscribe (h : handle)
| Finalize (h : handle)
| ErrorHandling_handleError (e : error)
| Event_stopPropagation (ev : Event)
| Dialog_openUserConfirmationModal
    (messages : list string) (yes no : string) (h : handle).

Record World := mkWorld {
  (** field of the component *)
  issuesPendingDeletion : gmap Z bool;
  (** [phaseService.currentPhase] *)
  currentPhase : Phase;
  (** the issue service's store of records, keyed by identifier *)
  localStore : gmap Z Issue;
  (** subscriptions that have not been torn down *)
  subscriptions : gmap handle subscriber;
  (** confirmation dialogs that are still open, with the [id] and
      [event] their callback captured *)
  dialogs : gmap handle (Z * Event);
  (** the next fresh handle *)
  nextHandle : handle;
  trace : list action
}.

Definition log (a : action) (w : World) : World :=
  mkWorld (issuesPendingDeletion w) (currentPhase w) (localStore w)
          (subscriptions w) (dialogs w) (nextHandle w) (trace w ++ [a]).

Definition set_localStore (st : gmap Z Issue) (w : World) : World :=
  mkWorld (issuesPendingDeletion w) (currentPhase w) st
          (subscriptions w) (dialogs w) (nextHandle w) (trace w).

Definition set_subscriptions (ss : gmap handle subscriber) (w : World) : World :=
  mkWorld (issuesPendingDeletion w) (currentPhase w) (localStore w)
          ss (dialogs w) (nextHandle w) (trace w).

Definition set_dialogs (ds : gmap handle (Z * Event)) (w : World) : World :=
  mkWorld (issuesPendingDeletion w) (currentPhase w) (localStore w)
          (subscriptions w) ds (nextHandle w) (trace w).

Definition fresh_handle (w : World) : World :=
  mkWorld (issuesPendingDeletion w) (currentPhase w) (localStore w)
          (subscriptions w) (dialogs w) (S (nextHandle w)) (trace w).

(** [this.issuesPendingDeletion = m] *)
Definition assign_issuesPendingDeletion (m : gmap Z bool) (w : World) : World :=
  log (Assign_issuesPendingDeletion m)
      (mkWorld m (currentPhase w) (localStore w)
               (subscriptions w) (dialogs w) (nextHandle w) (trace w)).

(** [observable.subscribe(...)]: the closure [k] is registered under a
    fresh handle. *)
Definition subscribe (k : subscriber) (w : World) : World :=
  let h := nextHandle w in
  log (Subscribe h)
      (fresh_handle (set_subscriptions (<[h := k]> (subscriptions w)) w)).

(** Tear-down of subscription [h]. *)
Definition close (h : handle) (w : World) : World :=
  set_subscriptions (delete h (subscriptions w)) w.

(** [ngOnInit]: the pending set starts empty.  The phase and the store
    belong to services and are whatever they are at that moment. *)
Definition ngOnInit (phase : Phase) (store : gmap Z Issue) : World :=
  mkWorld ∅ phase store ∅ ∅ 0%nat [].

(** Modelled from the spec: [issueService.updateLocalStore], whose code is
    not among the sources: "the returned canonical record is written via
    Local Store upsert", and upsert "overwrites an existing record with
    the same identifier entirely". *)
Definition updateLocalStore (updatedIssue : Issue) (w : World) : World :=
  log (IssueService_updateLocalStore updatedIssue)
      (set_localStore (<[id updatedIssue := updatedIssue]> (localStore w)) w).

(** Modelled from the spec: what the stream returned by
    [issueService.deleteIssue] has done to the store by the time it
    delivers a value: "On success, removes the record from Local Store." *)
Definition deleteFromLocalStore (id : Z) (w : World) : World :=
  set_localStore (delete id (localStore w)) w.

Definition deleteIssueModalMessages : list string :=
  ["Do you wish to delete this issue?"; "This action is irreversible!"].
Definition yesButtonModalMessage : string := "Yes, I wish to delete this issue".
Definition noButtonModalMessage : string := "No, I don't wish to delete this issue".

Section Component.

(** [issue.clone(phase)] of the model class, not among the sources: it
    returns a new record, so that assigning a field of the result leaves
    the record it was cloned from as it is. *)
Variable clone : Phase -> Issue -> Issue.

Definition markAsResponded (issue : Issue) (ev : Event) (w : World) : World :=
  let w := log (Logging_info "IssueTablesComponent: Marking Issue "
                             (id issue) " as Responded") w in
  let newIssue := clone (currentPhase w) issue in
  let newIssue := with_status Done newIssue in
  let w := log (IssueService_updateIssue newIssue) w in
  let w := subscribe UpdateIssueSubscriber w in
  log (Event_stopPropagation ev) w.

Definition markAsPending (issue : Issue) (ev : Event) (w : World) : World :=
  let w := log (Logging_info "IssueTablesComponent: Marking Issue "
                             (id issue) " as Pending") w in
  let newIssue := clone (currentPhase w) issue in
  let newIssue := with_status Incomplete newIssue in
  let w := log (IssueService_updateIssue newIssue) w in
  let w := subscribe UpdateIssueSubscriber w in
  log (Event_stopPropagation ev) w.

(** The two callbacks of [markAsResponded] and [markAsPending]. *)
Definition update_next (updatedIssue : Issue) (w : World) : World :=
  updateLocalStore updatedIssue w.

Definition update_error (e : error) (w : World) : World :=
  log (ErrorHandling_handleError e) w.

Definition deleteIssue (id : Z) (ev : Event) (w : World) : World :=
  let w := log (Logging_info "IssueTablesComponent: Deleting Issue " id "") w in
  let w := assign_issuesPendingDeletion
             (<[id := true]> (issuesPendingDeletion w)) w in
  let w := log (IssueService_deleteIssue id) w in
  let w := subscribe (DeleteIssueSubscriber id) w in
  log (Event_stopPropagation ev) w.

(** The three callbacks of [deleteIssue]. *)
Definition deleteIssue_finalize (id : Z) (w : World) : World :=
  let theRest := delete id (issuesPendingDeletion w) in
  assign_issuesPendingDeletion theRest w.

Definition deleteIssue_next (removedIssue : Issue) (w : World) : World := w.

Definition deleteIssue_error (e : error) (w : World) : World :=
  log (ErrorHandling_handleError e) w.

Definition openDeleteDialog (id : Z) (ev : Event) (w : World) : World :=
  let h := nextHandle w in
  let w := log (Dialog_openUserConfirmationModal deleteIssueModalMessages
                  yesButtonModalMessage noButtonModalMessage h) w in
  fresh_handle (set_dialogs (<[h := (id, ev)]> (dialogs w)) w).

(** The callback of [dialogRef.afterClosed().subscribe]. *)
Definition openDeleteDialog_closed
    (id : Z) (ev : Event) (res : option bool) (w : World) : World :=
  if truthy res
  then deleteIssue id ev (log (Logging_info "Deleting issue " id "") w)
  else w.

(** ** The RxJS run time

    A notification for a subscription that was torn down (or never
    existed) is dropped.  [Next] runs the first callback.  [Error] runs
    the second callback and then tears the subscription down; [Complete]
    tears it down.  Tearing down a subscription built with
    [pipe(finalize(f))] runs [f]. *)
Definition deliver (h : handle) (n : notification Issue) (w : World) : World :=
  match subscriptions w !! h with
  | None => w
  | Some UpdateIssueSubscriber =>
      match n with
      | Next updatedIssue => update_next updatedIssue w
      | Error e => close h (update_error e w)
      | Complete => close h w
      end
  | Some (DeleteIssueSubscriber id) =>
      match n with
      | Next removedIssue =>
          deleteIssue_next removedIssue (deleteFromLocalStore id w)
      | Error e =>
          deleteIssue_finalize id
            (log (Finalize h) (close h (deleteIssue_error e w)))
      | Complete =>
          deleteIssue_finalize id (log (Finalize h) (close h w))
      end
  end.

(** Modelled from the spec: the dialog collaborator, whose code is not
    among the sources: "confirm(promptLines, yesLabel, noLabel) →
    asynchronous boolean"; an open dialog closes once, with one result. *)
Definition dialogClosed (h : handle) (res : option bool) (w : World) : World :=
  match dialogs w !! h with
  | None => w
  | Some (id, ev) =>
      openDeleteDialog_closed id ev res (set_dialogs (delete h (dialogs w)) w)
  end.

(** The services are shared with the rest of the application, which can
    change the phase and the store between two turns of the component. *)
Definition elsewhere (phase : Phase) (store : gmap Z Issue) (w : World) : World :=
  mkWorld (issuesPendingDeletion w) phase store
          (subscriptions w) (dialogs w) (nextHandle w) (trace w).

(** ** Turns of the event loop *)
Inductive event :=
| CallMarkAsResponded (issue : Issue) (ev : Event)
| CallMarkAsPending (issue : Issue) (ev : Event)
| CallDeleteIssue (id : Z) (ev : Event)
| CallOpenDeleteDialog (id : Z) (ev : Event)
| DialogClosed (h : handle) (res : option bool)
| Deliver (h : handle) (n : notification Issue)
| Elsewhere (phase : Phase) (store : gmap Z Issue).

Definition step (e : event) (w : World) : World :=
  match e with
  | CallMarkAsResponded issue ev => markAsResponded issue ev w
  | CallMarkAsPending issue ev => markAsPending issue ev w
  | CallDeleteIssue id ev => deleteIssue id ev w
  | CallOpenDeleteDialog id ev => openDeleteDialog id ev w
  | DialogClosed h res => dialogClosed h res w
  | Deliver h n => deliver h n w
  | Elsewhere phase store => elsewhere phase store w
  end.

Fixpoint run (es : list event) (w : World) : World :=
  match es with
  | [] => w
  | e :: es => run es (step e w)
  end.

(** Worlds the component can be in. *)
Inductive reachable : World -> Prop :=
| reachable_init phase store : reachable (ngOnInit phase store)
| reachable_step e w : reachable w -> reachable (step e w).

End Component.

Definition is_Finalize (h : handle) (a : action) : bool :=
  match a with
  | Finalize h' => bool_decide (h' = h)
  | _ => false
  end.

(** How many times the [finalize] callback of subscription [h] has run. *)
Definition finalizations (h : handle) (w : World) : nat :=
  occurrences (is_Finalize h) (trace w).

Definition is_delete_request (i : Z) (a : action) : bool :=
  match a with
  | IssueService_deleteIssue i' => bool_decide (i' = i)
  | _ => false
  end.

(** How many delete requests for [i] have been issued. *)
Definition delete_requests (i : Z) (w : World) : nat :=
  occurrences (is_delete_request i) (trace w).

(** No resolution of subscription [h] is delivered during [es]. *)
Definition unresolved (h : handle) (es : list event) : Prop :=
  forall n, In (Deliver h n) es -> is_terminal n = false.

(** The invariant: live handles are below the next fresh handle, and the
    [finalize] callback of a handle that is live or not yet handed out has
    not run. *)
Definition well_formed (w : World) : Prop :=
  forall h : handle,
    (is_Some (subscriptions w !! h) -> (h < nextHandle w)%nat) /\
    (is_Some (subscriptions w !! h) \/ (nextHandle w <= h)%nat ->
     finalizations h w = 0%nat).

End CardView.

(** * The layout header component

    The model covers the phase switch, the reload with its cool-down and
    the log-out dialog.  The constructor's subscription to router events
    (it maintains [prevUrl]) and the navigation helpers touch none of the
    state these methods use and are left out. *)

Module Header.

(** An entry of [phaseService.getRepository()]. *)
Record Repo := mkRepo { owner : string; name : string }.

(** The closure [() => this.githubEventService.reloadPage()] that
    [reload] hands to the error handler. *)
Inductive callback := RetryReloadPage.

(** Field assignments and calls, in program order.  The subscription
    made by [subscribe] and the timer set by [setTimeout] are recorded
    with their handles. *)
Inductive action :=
| Assign_isReloadButtonDisabled (b : bool)
| Assign_currentPhase (p : Phase)
| GithubService_storePhaseDetails (owner name : string)
| GithubService_reset
| IssueService_reset (resetSessionId : bool)
| GithubEventService_reloadPage
| Subscribe (h : handle)
| ErrorHandling_handleError (e : error) (retry : option callback)
| SetTimeout (h : handle) (delay : N)
| Router_navigateByUrl (url : Phase)
| Logging_info (message : string)
| Auth_logOut
| Dialog_openUserConfirmationModal
    (messages : list string) (yes no : string) (h : handle).

Record World := mkWorld {
  (** field of the component *)
  isReloadButtonDisabled : bool;
  (** [phaseService.currentPhase] *)
  currentPhase : Phase;
  (** [userService.currentUser.loginId] *)
  loginId : string;
  (** the clock of the event loop, in milliseconds *)
  now : N;
  (** timers that have not fired, oldest first, with the time they are
      due; the one timer callback of the component is [reload]'s *)
  timers : list (handle * N);
  (** subscriptions to [reloadPage()] that have not been torn down *)
  subscriptions : gset handle;
  (** log-out dialogs that are still open *)
  dialogs : gset handle;
  (** the next fresh handle *)
  nextHandle : handle;
  trace : list action
}.

Definition log (a : action) (w : World) : World :=
  mkWorld (isReloadButtonDisabled w) (currentPhase w) (loginId w) (now w)
          (timers w) (subscriptions w) (dialogs w) (nextHandle w)
          (trace w ++ [a]).

Definition set_timers (ts : list (handle * N)) (w : World) : World :=
  mkWorld (isReloadButtonDisabled w) (currentPhase w) (loginId w) (now w)
          ts (subscriptions w) (dialogs w) (nextHandle w) (trace w).

Definition set_now (t : N) (w : World) : World :=
  mkWorld (isReloadButtonDisabled w) (currentPhase w) (loginId w) t
          (timers w) (subscriptions w) (dialogs w) (nextHandle w) (trace w).

Definition set_subscriptions (ss : gset handle) (w : World) : World :=
  mkWorld (isReloadButtonDisabled w) (currentPhase w) (loginId w) (now w)
          (timers w) ss (dialogs w) (nextHandle w) (trace w).

Definition set_dialogs (ds : gset handle) (w : World) : World :=
  mkWorld (isReloadButtonDisabled w) (currentPhase w) (loginId w) (now w)
          (timers w) (subscriptions w) ds (nextHandle w) (trace w).

Definition fresh_handle (w : World) : World :=
  mkWorld (isReloadButtonDisabled w) (currentPhase w) (loginId w) (now w)
          (timers w) (subscriptions w) (dialogs w) (S (nextHandle w))
          (trace w).

(** [this.isReloadButtonDisabled = b] *)
Definition assign_isReloadButtonDisabled (b : bool) (w : World) : World :=
  log (Assign_isReloadButtonDisabled b)
      (mkWorld b (currentPhase w) (loginId w) (now w)
               (timers w) (subscriptions w) (dialogs w) (nextHandle w)
               (trace w)).

(** [this.phaseService.currentPhase = p] *)
Definition assign_currentPhase (p : Phase) (w : World) : World :=
  log (Assign_currentPhase p)
      (mkWorld (isReloadButtonDisabled w) p (loginId w) (now w)
               (timers w) (subscriptions w) (dialogs w) (nextHandle w)
               (trace w)).

(** [observable.subscribe(...)] under a fresh handle. *)
Definition subscribe (w : World) : World :=
  let h := nextHandle w in
  log (Subscribe h)
      (fresh_handle (set_subscriptions ({[h]} ∪ subscriptions w) w)).

Definition close (h : handle) (w : World) : World :=
  set_subscriptions (subscriptions w ∖ {[h]}) w.

(** [setTimeout(callback, delay)]: the callback is due [delay]
    milliseconds from now. *)
Definition setTimeout (delay : N) (w : World) : World :=
  let h := nextHandle w in
  log (SetTimeout h delay)
      (fresh_handle (set_timers (timers w ++ [(h, (now w + delay)%N)]) w)).

(** The header as the application creates it. *)
Definition init (phase : Phase) (user : string) : World :=
  mkWorld false phase user 0%N [] ∅ ∅ 0%nat [].

Definition reload (w : World) : World :=
  let w := assign_isReloadButtonDisabled true w in
  let w := log GithubEventService_reloadPage w in
  let w := subscribe w in
  setTimeout 3000 w.

(** The callbacks of [reload]: the two handed to [subscribe], the retry
    closure, and the timer's. *)
Definition reload_next (w : World) : World := w.

Definition reload_error (e : error) (w : World) : World :=
  log (ErrorHandling_handleError e (Some RetryReloadPage)) w.

Definition invoke (c : callback) (w : World) : World :=
  match c with
  | RetryReloadPage => log GithubEventService_reloadPage w
  end.

Definition reload_timeout (w : World) : World :=
  assign_isReloadButtonDisabled false w.

Definition logOut (w : World) : World := log Auth_logOut w.

Definition logOutDialogMessages : list string := ["Do you wish to log out?"].
Definition yesButtonDialogMessage : string := "Yes, I wish to log out".
Definition noButtonDialogMessage : string := "No, I don't wish to log out".

Definition openLogOutDialog (w : World) : World :=
  let h := nextHandle w in
  let w := log (Dialog_openUserConfirmationModal logOutDialogMessages
                  yesButtonDialogMessage noButtonDialogMessage h) w in
  fresh_handle (set_dialogs ({[h]} ∪ dialogs w) w).

(** The callback of [dialogRef.afterClosed().subscribe]. *)
Definition openLogOutDialog_closed (res : option bool) (w : World) : World :=
  if truthy res
  then logOut (log (Logging_info ("Logging out from " +:+ loginId w)) w)
  else w.

(** Modelled from the spec: the dialog collaborator, whose code is not
    among the sources: "confirm(promptLines, yesLabel, noLabel) →
    asynchronous boolean"; an open dialog closes once, with one result. *)
Definition dialogClosed (h : handle) (res : option bool) (w : World) : World :=
  if decide (h ∈ dialogs w)
  then openLogOutDialog_closed res (set_dialogs (dialogs w ∖ {[h]}) w)
  else w.

(** The RxJS run time, as for the card view: a notification for a
    subscription that was torn down is dropped, [Error] runs the error
    callback and tears down, [Complete] tears down. *)
Definition deliver (h : handle) (n : notification unit) (w : World) : World :=
  if decide (h ∈ subscriptions w)
  then match n with
       | Next _ => reload_next w
       | Error e => close h (reload_error e w)
       | Complete => close h w
       end
  else w.

(** The due timers fire one after the other. *)
Definition fire (due : list (handle * N)) (w : World) : World :=
  fold_left (fun w _ => reload_timeout w) due w.

(** The event loop's clock moves on by [dt] milliseconds and every timer
    that has come due fires, oldest first. *)
Definition is_due (t : N) (timer : handle * N) : bool := (snd timer <=? t)%N.

Definition advance (dt : N) (w : World) : World :=
  let t := (now w + dt)%N in
  let due := List.filter (is_due t) (timers w) in
  let waiting := List.filter (fun timer => negb (is_due t timer)) (timers w) in
  fire due (set_now t (set_timers waiting w)).

(** Modelled from the spec: the reload trigger of the view (the template
    is not among the sources), which "disables the trigger" while
    [isReloadButtonDisabled] holds, so that pressing it does nothing. *)
Definition pressReload (w : World) : World :=
  if isReloadButtonDisabled w then w else reload w.

(** How a method call ends. *)
Inductive completion := Returned | Threw.

Section Component.

(** The enum object [Phase], indexed by a member name ([Phase[openPhase]]),
    and [phaseService.getRepository()], which depends on the current
    phase; neither is among the sources. *)
Variable Phase_enum : string -> Phase.
Variable getRepository : Phase -> list Repo.

Definition routeToSelectedPhase (openPhase : string) (w : World)
  : World * completion :=
  if decide (currentPhase w = Phase_enum openPhase) then (w, Returned)
  else
    let w := assign_currentPhase (Phase_enum openPhase) w in
    match getRepository (currentPhase w) with
    | [] =>
        (* [getRepository()[0]] is [undefined]: reading [.owner] throws *)
        (w, Threw)
    | repo :: _ =>
        let w := log (GithubService_storePhaseDetails (owner repo) (name repo)) w in
        let w := log GithubService_reset w in
        let w := log (IssueService_reset false) w in
        let w := reload w in
        let w := log (Router_navigateByUrl (currentPhase w)) w in
        (w, Returned)
    end.

(** ** Turns of the event loop *)
Inductive event :=
| CallReload
| CallRouteToSelectedPhase (openPhase : string)
| PressReload
| CallOpenLogOutDialog
| DialogClosed (h : handle) (res : option bool)
| Deliver (h : handle) (n : notification unit)
| Invoke (c : callback)
| Advance (dt : N).

Definition step (e : event) (w : World) : World :=
  match e with
  | CallReload => reload w
  | CallRouteToSelectedPhase openPhase => fst (routeToSelectedPhase openPhase w)
  | PressReload => pressReload w
  | CallOpenLogOutDialog => openLogOutDialog w
  | DialogClosed h res => dialogClosed h res w
  | Deliver h n => deliver h n w
  | Invoke c => invoke c w
  | Advance dt => advance dt w
  end.

Fixpoint run (es : list event) (w : World) : World :=
  match es with
  | [] => w
  | e :: es => run es (step e w)
  end.

(** Worlds the component can be in. *)
Inductive reachable : World -> Prop :=
| reachable_init phase user : reachable (init phase user)
| reachable_step e w : reachable w -> reachable (step e w).

(** Milliseconds that pass during a sequence of turns. *)
Fixpoint elapsed (es : list event) : N :=
  match es with
  | [] => 0
  | Advance dt :: es => dt + elapsed es
  | _ :: es => elapsed es
  end%N.

(** Turns that call [reload] on any path. *)
Definition calls_reload (e : event) : bool :=
  match e with
  | CallReload | CallRouteToSelectedPhase _ | PressReload => true
  | _ => false
  end.

(** Turns in which the refresh operation can only be started through
    the trigger of the view. *)
Definition through_trigger (e : event) : bool :=
  match e with
  | CallReload | CallRouteToSelectedPhase _ | Invoke _ => false
  | _ => true
  end.

End Component.

Definition is_reloadPage (a : action) : bool :=
  match a with
  | GithubEventService_reloadPage => true
  | _ => false
  end.

(** How many times the full-refresh operation has been invoked. *)
Definition refresh_requests (w : World) : nat :=
  occurrences is_reloadPage (trace w).

Definition is_logOut (a : action) : bool :=
  match a with
  | Auth_logOut => true
  | _ => false
  end.

Definition logouts (w : World) : nat := occurrences is_logOut (trace w).


(** Turns that neither call [reload] nor move the clock. *)
Definition passive (e : event) : bool :=
  match e with
  | CallOpenLogOutDialog | DialogClosed _ _ | Deliver _ _ | Invoke _ => true
  | _ => false
  end.

(** No resolution of subscription [h] is delivered during [es]. *)
Definition unresolved (h : handle) (es : list event) : Prop :=
  forall n, In (Deliver h n) es -> is_terminal n = false.

(** The invariant of the cool-down: while the trigger is disabled, a
    timer that enables it is pending and due within the cool-down. *)
Definition cooling (w : World) : Prop :=
  isReloadButtonDisabled w = true ->
  exists h d, In (h, d) (timers w)
              /\ (now w < d <= now w + 3000)%N.

End Header.

(** * More of JavaScript's strings *)

Module JsString.
Import Text.

(** A string literal of the source, as code units. *)
Definition lit (s : string) : js_string :=
  map Ascii.N_of_ascii (String.list_ascii_of_string s).

(** [String.prototype.substring(start, end)]: both positions are clamped
    to the string, and swapped when [start] is behind [end]. *)
Definition clip (len pos : Z) : Z := Z.min (Z.max pos 0) len.

Definition substring (s : js_string) (start finish : Z) : js_string :=
  let len := Z.of_nat (length s) in
  let a := clip len start in
  let b := clip len finish in
  let from := Z.min a b in
  let to := Z.max a b in
  firstn (Z.to_nat (to - from)) (skipn (Z.to_nat from) s).

(** [substring(start)]: a missing [end] is the length of the string. *)
Definition substring_from (s : js_string) (start : Z) : js_string :=
  substring s start (Z.of_nat (length s)).

(** [String.prototype.indexOf(c)] for a search string of one code unit,
    which is how the components call it: the first position of [c], or
    [-1]. *)
Fixpoint indexOf (c : code_unit) (s : js_string) : Z :=
  match s with
  | [] => -1
  | d :: s' =>
      if (d =? c)%N then 0
      else let i := indexOf c s' in if i <? 0 then -1 else i + 1
  end.

(** [String.prototype.split(c)] for a separator of one code unit: the
    pieces between the separators, empty pieces included; the empty string
    gives one empty piece. *)
Fixpoint split (c : code_unit) (s : js_string) : list js_string :=
  match s with
  | [] => [[]]
  | d :: s' =>
      if (d =? c)%N then [] :: split c s'
      else match split c s' with
           | piece :: pieces => (d :: piece) :: pieces
           | [] => [[d]]
           end
  end.

(** [Array.prototype.join(c)] for a separator of one code unit. *)
Fixpoint join (c : code_unit) (pieces : list js_string) : js_string :=
  match pieces with
  | [] => []
  | [piece] => piece
  | piece :: pieces => piece ++ c :: join c pieces
  end.

(** The text a template literal puts for a phase: the value of the enum
    member, or [undefined]. *)
Definition phase_text (p : Phase) : js_string :=
  match p with
  | Some member => lit member
  | None => lit "undefined"
  end.

End JsString.

(** * The card view: what a card displays *)

Module CardDisplay.
Import Text JsString.

Definition MAX_WORD_LENGTH : Z := 43.

(** The literal [' '], one space (U+0020). *)
Definition SPLITTER_TEXT : code_unit := 32%N.

(** The function [fitTitleText] maps over the words. *)
Definition fitWord (word : js_string) : js_string :=
  if MAX_WORD_LENGTH <? Z.of_nat (length word)
  then substring word 0 (MAX_WORD_LENGTH - 5) ++ ELLIPSES
  else word.

Definition fitTitleText (title : js_string) : js_string :=
  join SPLITTER_TEXT (map fitWord (split SPLITTER_TEXT title)).

(** What the card reads of [issue.githubIssue]. *)
Record GithubIssue := mkGithubIssue { state : string; issueOrPr : string }.

Definition getIssueOpenOrCloseColor (githubIssue : GithubIssue) : string :=
  if decide (state githubIssue = "OPEN") then "green" else "purple".

Definition getIssueOpenOrCloseColorCSSClass (githubIssue : GithubIssue)
  : string :=
  if decide (state githubIssue = "OPEN") then "border-green"
  else "border-purple".

(** [switch (true)]: the first case whose test holds. *)
Definition getOcticon (githubIssue : GithubIssue) : string :=
  let type := issueOrPr githubIssue in
  let state := state githubIssue in
  if bool_decide (type = "Issue") && bool_decide (state = "OPEN")
  then "issue-opened"
  else if bool_decide (type = "Issue") && bool_decide (state = "CLOSED")
  then "issue-closed"
  else if bool_decide (type = "PullRequest") && bool_decide (state = "OPEN")
  then "git-pull-request"
  else if bool_decide (type = "PullRequest")
  then "git-merge"
  else "circle".

End CardDisplay.

(** * The header: where its buttons lead *)

Module HeaderNav.
Import Text JsString.

(** The events of the router: the constructor keeps those that are
    [RoutesRecognized], the others pass by. *)
Inductive router_event :=
| RoutesRecognized (url urlAfterRedirects : js_string)
| OtherRouterEvent.

(** The subscription of the constructor: what [pairwise] has buffered
    (the [urlAfterRedirects] of the latest event it was given), and the
    field [prevUrl], which is [undefined] at first. *)
Record tracker := mkTracker {
  buffered : option js_string;
  prevUrl : option js_string
}.

Definition constructed : tracker := mkTracker None None.

(** [filter(e => e instanceof RoutesRecognized)], then [pairwise()],
    which emits the pair of the previous and of the new event from the
    second event on, then [e => this.prevUrl = e[0].urlAfterRedirects]. *)
Definition on_router_event (e : router_event) (t : tracker) : tracker :=
  match e with
  | OtherRouterEvent => t
  | RoutesRecognized _ urlAfterRedirects =>
      match buffered t with
      | None => mkTracker (Some urlAfterRedirects) (prevUrl t)
      | Some previous => mkTracker (Some urlAfterRedirects) (Some previous)
      end
  end.

Definition on_router_events (es : list router_event) (t : tracker) : tracker :=
  fold_left (fun t e => on_router_event e t) es t.

(** The [urlAfterRedirects] of the routes recognized during [es], oldest
    first. *)
Fixpoint recognized (es : list router_event) : list js_string :=
  match es with
  | [] => []
  | RoutesRecognized _ urlAfterRedirects :: es =>
      urlAfterRedirects :: recognized es
  | OtherRouterEvent :: es => recognized es
  end.

(** What [goBack] does: one of two calls. *)
Inductive navigation :=
| Router_navigateByUrl (url : Phase)
| Location_back.

Definition goBack (prevUrl : option js_string) (currentPhase : Phase)
  : navigation :=
  if decide (prevUrl
             = Some (lit "/" ++ phase_text currentPhase ++ lit "/issues/new"))
  then Router_navigateByUrl currentPhase
  else Location_back.

Definition ISSUE_FILTER : js_string := lit "/issues?q=is:issue+is:all".

(** The literal ['/'] (U+002F). *)
Definition SLASH : code_unit := 47%N.

Section Component.

(** The member [Phase.activityDashboard] of the enum, which is not among
    the sources. *)
Variable activityDashboard : Phase.

(** [viewBrowser]: the link handed to [electronService.openLink], for the
    current phase, [router.url] and [githubService.getRepoURL()]. *)
Definition viewBrowser (currentPhase : Phase) (url repoURL : js_string)
  : js_string :=
  if decide (currentPhase = activityDashboard)
  then lit "https://github.com/gycgabriel/WATcher-test/pulse"
  else
    let routerUrl := substring_from url 1 in
    let issueUrlIndex := indexOf SLASH routerUrl in
    let issueUrl :=
      if issueUrlIndex <? 0 then ISSUE_FILTER
      else substring_from routerUrl issueUrlIndex in
    lit "https://github.com/" ++ repoURL ++ issueUrl.

End Component.

End HeaderNav.

(** * The card view: an invariant of the pending set *)

Module CardViewInvariant.
Import CardView.

(** An identifier in the pending set is marked [true] and has a delete
    in flight. *)
Definition pending_in_flight (w : World) : Prop :=
  forall i b,
    issuesPendingDeletion w !! i = Some b ->
    b = true /\
    exists h, subscriptions w !! h = Some (DeleteIssueSubscriber i).

End CardViewInvariant.

(** * The two components side by side

    The header and the card view are separate components that share the
    injected services: the phase the header assigns is the phase the card
    view reads, and the issue service the header resets holds the store
    the card view reads. *)

Module App.

Record World := mkWorld {
  header : Header.World;
  cards : CardView.World
}.

(** A step of the header that touches no state the card view reads. *)
Definition on_header (f : Header.World -> Header.World) (a : World) : World :=
  mkWorld (f (header a)) (cards a).

(** [this.phaseService.currentPhase = p] in the header: the card view
    reads the same service. *)
Definition assign_currentPhase (p : Phase) (a : World) : World :=
  mkWorld (Header.assign_currentPhase p (header a))
          (CardView.elsewhere p (CardView.localStore (cards a)) (cards a)).

(** Modelled from the spec: [issueService.reset], whose code is not among
    the sources: it "clear[s]/reset[s] the issue-side state".  Of that
    state the issue service holds the Local Store, which is emptied.  The
    pending set is the field [issuesPendingDeletion] of the card view; the
    card view passes itself to no service and [reset] is called with
    [false] and nothing else, so the call has no way to that field. *)
Definition issueService_reset (resetSessionId : bool) (a : World) : World :=
  mkWorld (Header.log (Header.IssueService_reset resetSessionId) (header a))
          (CardView.elsewhere (CardView.currentPhase (cards a)) ∅ (cards a)).

Section Component.

Variable Phase_enum : string -> Phase.
Variable getRepository : Phase -> list Header.Repo.

(** [routeToSelectedPhase] of the header, with what its calls do to the
    services the card view reads. *)
Definition routeToSelectedPhase (openPhase : string) (a : World)
  : World * Header.completion :=
  if decide (Header.currentPhase (header a) = Phase_enum openPhase)
  then (a, Header.Returned)
  else
    let a := assign_currentPhase (Phase_enum openPhase) a in
    match getRepository (Header.currentPhase (header a)) with
    | [] =>
        (* [getRepository()[0]] is [undefined]: reading [.owner] throws *)
        (a, Header.Threw)
    | repo :: _ =>
        let a := on_header
                   (Header.log
                      (Header.GithubService_storePhaseDetails
                         (Header.owner repo) (Header.name repo))) a in
        let a := on_header (Header.log Header.GithubService_reset) a in
        let a := issueService_reset false a in
        let a := on_header Header.reload a in
        let a := on_header
                   (Header.log
                      (Header.Router_navigateByUrl
                         (Header.currentPhase (header a)))) a in
        (a, Header.Returned)
    end.

End Component.

End App.

(** * Sample data for the scenarios *)

Module Sample.

Definition issue1 : CardView.Issue :=
  CardView.mkIssue 1 CardView.Incomplete [("title", "Crash on start")].

Definition issue1_done : CardView.Issue :=
  CardView.mkIssue 1 CardView.Done [("title", "Crash on start")].

(** A [clone] that copies the record as it is. *)
Definition copy : Phase -> CardView.Issue -> CardView.Issue :=
  fun _ issue => issue.

(** The card view over a store that holds record 1. *)
Definition cards : CardView.World :=
  CardView.ngOnInit (Some "issuesViewer") {[1 := issue1]}.

(** An enum object whose members are named like their values, and a
    phase service with one repository for every phase. *)
Definition Phase_enum : string -> Phase := Some.

Definition getRepository : Phase -> list Header.Repo :=
  fun _ => [Header.mkRepo "CATcher-org" "WATcher"].

Definition header : Header.World := Header.init (Some "issuesViewer") "user".

End Sample.

Module AppSample.



End AppSample.

(** * Properties of [fitDescriptionText] *)

Section TextProperties.
Import Text.

Lemma clamp_zero (len : Z) : 0 <= len -> clamp len 0 = 0.
Proof. intros Hlen. unfold clamp. simpl. lia. Qed.

Lemma clamp_inside (len pos : Z) : 0 <= pos -> clamp len pos = Z.min pos len.
Proof.
  intros Hpos. unfold clamp.
  destruct (Z.ltb_spec pos 0) as [Hneg | _]; [lia | reflexivity].
Qed.

(** From position 0, [slice] is the prefix of the requested length. *)
Lemma slice_from_start (s : js_string) (n : nat) :
  slice s 0 (Z.of_nat n) = firstn n s.
Proof.
  unfold slice.
  rewrite clamp_zero by lia. rewrite clamp_inside by lia.
  change (Z.to_nat 0) with 0%nat. rewrite skipn_O.
  destruct (Nat.le_gt_cases n (length s)) as [Hle | Hgt].
  - replace (Z.to_nat _) with n by lia. reflexivity.
  - replace (Z.to_nat _) with (length s) by lia.
    rewrite !firstn_all2 by lia. reflexivity.
Qed.

Lemma fitDescriptionText_prefix (s : js_string) :
  fitDescriptionText s = firstn 72 s ++ ELLIPSES.
Proof.
  unfold fitDescriptionText, MAX_CHARACTER_LENGTH.
  change 72 with (Z.of_nat 72). rewrite slice_from_start. reflexivity.
Qed.

Lemma fitDescriptionText_length (s : js_string) :
  length (fitDescriptionText s) = (Nat.min 72 (length s) + 3)%nat.
Proof.
  rewrite fitDescriptionText_prefix, length_app, length_firstn. reflexivity.
Qed.

(** C10, the claim as written fails: a description of 75 code units whose
    last three are full stops is not empty and is returned as it is. *)
Lemma fitDescriptionText_returns_its_input :
  let s := repeat 97%N 72 ++ ELLIPSES in
  s <> [] /\ length s = 75%nat /\ fitDescriptionText s = s.
Proof. cbv zeta. split; [discriminate | split; reflexivity]. Qed.

(** C10, amended: for every description [s], [fitDescriptionText s] is the
    first 72 code units of [s] followed by ['...'], whatever the length of
    [s]; the empty description gives ['...']; a description of at most 72
    code units comes back whole with ['...'] behind it and so differs from
    the input; the result equals the input exactly when the input has 75
    code units of which the last three are ['...']. *)
Theorem fitDescriptionText_spec (s : js_string) :
  fitDescriptionText s = firstn 72 s ++ ELLIPSES
  /\ fitDescriptionText [] = ELLIPSES
  /\ ((length s <= 72)%nat ->
      fitDescriptionText s = s ++ ELLIPSES /\ fitDescriptionText s <> s)
  /\ (fitDescriptionText s = s <->
      length s = 75%nat /\ skipn 72 s = ELLIPSES).
Proof.
  split; [apply fitDescriptionText_prefix |].
  split; [reflexivity |].
  split.
  - intros Hshort. rewrite fitDescriptionText_prefix.
    rewrite firstn_all2 by exact Hshort. split; [reflexivity |].
    intros Heq. apply (f_equal (@length _)) in Heq.
    rewrite length_app in Heq. simpl in Heq. lia.
  - split.
    + intros Heq.
      assert (Hlen : length s = 75%nat).
      { apply (f_equal (@length _)) in Heq.
        rewrite fitDescriptionText_length in Heq. lia. }
      split; [exact Hlen |].
      rewrite fitDescriptionText_prefix in Heq.
      assert (Hsplit : firstn 72 s ++ ELLIPSES = firstn 72 s ++ skipn 72 s)
        by (rewrite firstn_skipn; exact Heq).
      apply app_inv_head in Hsplit. symmetry. exact Hsplit.
    + intros [_ Htail]. rewrite fitDescriptionText_prefix, <- Htail.
      apply firstn_skipn.
Qed.

End TextProperties.

(** * Properties of the card view *)

Lemma occurrences_app {A : Type} (p : A -> bool) (l1 l2 : list A) :
  occurrences p (l1 ++ l2) = (occurrences p l1 + occurrences p l2)%nat.
Proof. unfold occurrences. rewrite List.filter_app, length_app. reflexivity. Qed.

Section CardViewProperties.
Import CardView.

Variable clone : Phase -> Issue -> Issue.

Local Abbreviation markAsResponded := (markAsResponded clone).
Local Abbreviation markAsPending := (markAsPending clone).
Local Abbreviation step := (step clone).
Local Abbreviation run := (run clone).
Local Abbreviation reachable := (reachable clone).

(** Two worlds with the same fields are the same world. *)
Lemma World_eq (w w' : World) :
  issuesPendingDeletion w = issuesPendingDeletion w' ->
  currentPhase w = currentPhase w' ->
  localStore w = localStore w' ->
  subscriptions w = subscriptions w' ->
  dialogs w = dialogs w' ->
  nextHandle w = nextHandle w' ->
  trace w = trace w' ->
  w = w'.
Proof. destruct w, w'. cbn. intros. subst. reflexivity. Qed.

Ltac world_eq := apply World_eq; cbn; rewrite <- ?app_assoc; reflexivity.

(** ** What each method does to the world *)

Lemma deleteIssue_unfold (i : Z) (ev : Event) (w : World) :
  deleteIssue i ev w =
  mkWorld (<[i := true]> (issuesPendingDeletion w)) (currentPhase w)
    (localStore w)
    (<[nextHandle w := DeleteIssueSubscriber i]> (subscriptions w))
    (dialogs w) (S (nextHandle w))
    (trace w ++
       [Logging_info "IssueTablesComponent: Deleting Issue " i "";
        Assign_issuesPendingDeletion (<[i := true]> (issuesPendingDeletion w));
        IssueService_deleteIssue i;
        Subscribe (nextHandle w);
        Event_stopPropagation ev]).
Proof. world_eq. Qed.

Lemma markAsResponded_unfold (issue : Issue) (ev : Event) (w : World) :
  markAsResponded issue ev w =
  mkWorld (issuesPendingDeletion w) (currentPhase w) (localStore w)
    (<[nextHandle w := UpdateIssueSubscriber]> (subscriptions w))
    (dialogs w) (S (nextHandle w))
    (trace w ++
       [Logging_info "IssueTablesComponent: Marking Issue " (id issue)
          " as Responded";
        IssueService_updateIssue
          (with_status Done (clone (currentPhase w) issue));
        Subscribe (nextHandle w);
        Event_stopPropagation ev]).
Proof. world_eq. Qed.

Lemma markAsPending_unfold (issue : Issue) (ev : Event) (w : World) :
  markAsPending issue ev w =
  mkWorld (issuesPendingDeletion w) (currentPhase w) (localStore w)
    (<[nextHandle w := UpdateIssueSubscriber]> (subscriptions w))
    (dialogs w) (S (nextHandle w))
    (trace w ++
       [Logging_info "IssueTablesComponent: Marking Issue " (id issue)
          " as Pending";
        IssueService_updateIssue
          (with_status Incomplete (clone (currentPhase w) issue));
        Subscribe (nextHandle w);
        Event_stopPropagation ev]).
Proof. world_eq. Qed.

Lemma openDeleteDialog_unfold (i : Z) (ev : Event) (w : World) :
  openDeleteDialog i ev w =
  mkWorld (issuesPendingDeletion w) (currentPhase w) (localStore w)
    (subscriptions w) (<[nextHandle w := (i, ev)]> (dialogs w))
    (S (nextHandle w))
    (trace w ++
       [Dialog_openUserConfirmationModal deleteIssueModalMessages
          yesButtonModalMessage noButtonModalMessage (nextHandle w)]).
Proof. reflexivity. Qed.

(** Delivery to a subscription of [deleteIssue]. *)
Lemma deliver_delete_next (h : handle) (i : Z) (removed : Issue) (w : World) :
  subscriptions w !! h = Some (DeleteIssueSubscriber i) ->
  deliver h (Next removed) w =
  mkWorld (issuesPendingDeletion w) (currentPhase w)
    (delete i (localStore w)) (subscriptions w) (dialogs w) (nextHandle w)
    (trace w).
Proof. intros Hlive. unfold deliver. rewrite Hlive. reflexivity. Qed.

Lemma deliver_delete_error (h : handle) (i : Z) (e : error) (w : World) :
  subscriptions w !! h = Some (DeleteIssueSubscriber i) ->
  deliver h (Error e) w =
  mkWorld (delete i (issuesPendingDeletion w)) (currentPhase w)
    (localStore w) (delete h (subscriptions w)) (dialogs w) (nextHandle w)
    (trace w ++
       [ErrorHandling_handleError e;
        Finalize h;
        Assign_issuesPendingDeletion (delete i (issuesPendingDeletion w))]).
Proof.
  intros Hlive. unfold deliver. rewrite Hlive.
  world_eq.
Qed.

Lemma deliver_delete_complete (h : handle) (i : Z) (w : World) :
  subscriptions w !! h = Some (DeleteIssueSubscriber i) ->
  deliver h Complete w =
  mkWorld (delete i (issuesPendingDeletion w)) (currentPhase w)
    (localStore w) (delete h (subscriptions w)) (dialogs w) (nextHandle w)
    (trace w ++
       [Finalize h;
        Assign_issuesPendingDeletion (delete i (issuesPendingDeletion w))]).
Proof.
  intros Hlive. unfold deliver. rewrite Hlive.
  world_eq.
Qed.

(** Delivery to a subscription of [markAsResponded] or [markAsPending]. *)
Lemma deliver_update_next (h : handle) (u : Issue) (w : World) :
  subscriptions w !! h = Some UpdateIssueSubscriber ->
  deliver h (Next u) w =
  mkWorld (issuesPendingDeletion w) (currentPhase w)
    (<[id u := u]> (localStore w)) (subscriptions w) (dialogs w)
    (nextHandle w) (trace w ++ [IssueService_updateLocalStore u]).
Proof. intros Hlive. unfold deliver. rewrite Hlive. reflexivity. Qed.

Lemma deliver_update_error (h : handle) (e : error) (w : World) :
  subscriptions w !! h = Some UpdateIssueSubscriber ->
  deliver h (Error e) w =
  mkWorld (issuesPendingDeletion w) (currentPhase w) (localStore w)
    (delete h (subscriptions w)) (dialogs w) (nextHandle w)
    (trace w ++ [ErrorHandling_handleError e]).
Proof. intros Hlive. unfold deliver. rewrite Hlive. reflexivity. Qed.

Lemma deliver_update_complete (h : handle) (w : World) :
  subscriptions w !! h = Some UpdateIssueSubscriber ->
  deliver h Complete w =
  mkWorld (issuesPendingDeletion w) (currentPhase w) (localStore w)
    (delete h (subscriptions w)) (dialogs w) (nextHandle w) (trace w).
Proof. intros Hlive. unfold deliver. rewrite Hlive. reflexivity. Qed.

Lemma deliver_closed (h : handle) (n : notification Issue) (w : World) :
  subscriptions w !! h = None -> deliver h n w = w.
Proof. intros Hclosed. unfold deliver. rewrite Hclosed. reflexivity. Qed.

Lemma dialogClosed_open (h : handle) (i : Z) (ev : Event) (res : option bool)
    (w : World) :
  dialogs w !! h = Some (i, ev) ->
  dialogClosed h res w =
  if truthy res
  then deleteIssue i ev
         (log (Logging_info "Deleting issue " i "")
              (set_dialogs (delete h (dialogs w)) w))
  else set_dialogs (delete h (dialogs w)) w.
Proof. intros Hopen. unfold dialogClosed. rewrite Hopen. reflexivity. Qed.

Lemma dialogClosed_unknown (h : handle) (res : option bool) (w : World) :
  dialogs w !! h = None -> dialogClosed h res w = w.
Proof. intros Hnone. unfold dialogClosed. rewrite Hnone. reflexivity. Qed.

(** ** Handles are fresh, and a closed subscription stays closed *)

Lemma step_nextHandle (e : event) (w : World) :
  (nextHandle w <= nextHandle (step e w))%nat.
Proof.
  destruct e as [issue ev | issue ev | i ev | i ev | h res | h n | p st];
    cbn [CardView.step].
  - rewrite markAsResponded_unfold. simpl. lia.
  - rewrite markAsPending_unfold. simpl. lia.
  - rewrite deleteIssue_unfold. simpl. lia.
  - rewrite openDeleteDialog_unfold. simpl. lia.
  - destruct (dialogs w !! h) as [[i ev] |] eqn:Hd.
    + rewrite (dialogClosed_open _ _ _ _ _ Hd).
      destruct (truthy res); [rewrite deleteIssue_unfold |]; simpl; lia.
    + rewrite (dialogClosed_unknown _ _ _ Hd). lia.
  - unfold deliver.
    destruct (subscriptions w !! h) as [[| i] |]; destruct n; simpl; lia.
  - simpl. lia.
Qed.

(** A step registers subscriptions under the next fresh handle only. *)
Lemma step_subscriptions (e : event) (w : World) (h : handle) (k : subscriber) :
  subscriptions (step e w) !! h = Some k ->
  subscriptions w !! h = Some k \/
  (h = nextHandle w /\ nextHandle (step e w) = S (nextHandle w)).
Proof.
  destruct e as [issue ev | issue ev | i ev | i ev | h' res | h' n | p st];
    cbn [CardView.step].
  - rewrite markAsResponded_unfold. cbn [subscriptions nextHandle].
    rewrite lookup_insert. case_decide; [subst; auto | auto].
  - rewrite markAsPending_unfold. cbn [subscriptions nextHandle].
    rewrite lookup_insert. case_decide; [subst; auto | auto].
  - rewrite deleteIssue_unfold. cbn [subscriptions nextHandle].
    rewrite lookup_insert. case_decide; [subst; auto | auto].
  - rewrite openDeleteDialog_unfold. cbn [subscriptions]. auto.
  - destruct (dialogs w !! h') as [[i ev] |] eqn:Hd.
    + rewrite (dialogClosed_open _ _ _ _ _ Hd).
      destruct (truthy res); [| cbn; auto].
      rewrite deleteIssue_unfold. cbn.
      rewrite lookup_insert. case_decide; [subst; auto | auto].
    + rewrite (dialogClosed_unknown _ _ _ Hd). auto.
  - unfold deliver.
    destruct (subscriptions w !! h') as [[| i] |] eqn:Hs; destruct n; cbn;
      try rewrite lookup_delete; try case_decide; auto; discriminate.
  - cbn. auto.
Qed.

(** A step runs the [finalize] callback of [h] only when it delivers the
    resolution of the live subscription [h] of a [deleteIssue], and then
    it runs it once and tears [h] down. *)
Lemma step_finalizations (e : event) (w : World) (h : handle) :
  finalizations h (step e w) = finalizations h w \/
  (exists n i,
      e = Deliver h n /\ is_terminal n = true /\
      subscriptions w !! h = Some (DeleteIssueSubscriber i) /\
      subscriptions (step e w) !! h = None /\
      finalizations h (step e w) = S (finalizations h w)).
Proof.
  destruct e as [issue ev | issue ev | i ev | i ev | h' res | h' n | p st];
    cbn [CardView.step].
  - left. rewrite markAsResponded_unfold. unfold finalizations. cbn [trace].
    rewrite occurrences_app. cbn. lia.
  - left. rewrite markAsPending_unfold. unfold finalizations. cbn [trace].
    rewrite occurrences_app. cbn. lia.
  - left. rewrite deleteIssue_unfold. unfold finalizations. cbn [trace].
    rewrite occurrences_app. cbn. lia.
  - left. rewrite openDeleteDialog_unfold. unfold finalizations. cbn [trace].
    rewrite occurrences_app. cbn. lia.
  - left. destruct (dialogs w !! h') as [[i ev] |] eqn:Hd.
    + rewrite (dialogClosed_open _ _ _ _ _ Hd).
      destruct (truthy res); [| reflexivity].
      rewrite deleteIssue_unfold. unfold finalizations. cbn [trace log set_dialogs].
      rewrite !occurrences_app. cbn. lia.
    + rewrite (dialogClosed_unknown _ _ _ Hd). reflexivity.
  - destruct (subscriptions w !! h') as [[| i] |] eqn:Hs.
    + left. destruct n.
      * rewrite (deliver_update_next _ _ _ Hs).
        unfold finalizations. cbn [trace]. rewrite occurrences_app. cbn. lia.
      * rewrite (deliver_update_error _ _ _ Hs).
        unfold finalizations. cbn [trace]. rewrite occurrences_app. cbn. lia.
      * rewrite (deliver_update_complete _ _ Hs). reflexivity.
    + destruct n as [removed | err |].
      * left. rewrite (deliver_delete_next _ _ _ _ Hs). reflexivity.
      * rewrite (deliver_delete_error _ _ _ _ Hs).
        unfold finalizations. cbn [trace subscriptions].
        rewrite occurrences_app. unfold occurrences at 2. cbn.
        case_bool_decide as Hh.
        -- right. subst h'. exists (Error err), i.
           rewrite lookup_delete_eq. cbn. repeat split; auto; lia.
        -- left. cbn. lia.
      * rewrite (deliver_delete_complete _ _ _ Hs).
        unfold finalizations. cbn [trace subscriptions].
        rewrite occurrences_app. unfold occurrences at 2. cbn.
        case_bool_decide as Hh.
        -- right. subst h'. exists Complete, i.
           rewrite lookup_delete_eq. cbn. repeat split; auto; lia.
        -- left. cbn. lia.
    + left. rewrite (deliver_closed _ _ _ Hs). reflexivity.
  - left. reflexivity.
Qed.

Lemma well_formed_init (phase : Phase) (store : gmap Z Issue) :
  well_formed (ngOnInit phase store).
Proof.
  intros h. cbn. rewrite lookup_empty. split.
  - intros [k Hk]. discriminate.
  - intros _. reflexivity.
Qed.

Lemma well_formed_step (e : event) (w : World) :
  well_formed w -> well_formed (step e w).
Proof.
  intros Hwf h. destruct (Hwf h) as [Hlt Hzero].
  pose proof (step_nextHandle e w) as Hmono.
  split.
  - intros [k Hk]. apply step_subscriptions in Hk as [Hk | [-> Hnext]].
    + assert (h < nextHandle w)%nat by (apply Hlt; eauto). lia.
    + lia.
  - intros Hcase.
    assert (Hbefore : finalizations h w = 0%nat).
    { destruct Hcase as [[k Hk] | Hge].
      - apply step_subscriptions in Hk as [Hk | [-> Hnext]].
        + apply Hzero. left. eauto.
        + apply Hzero. right. lia.
      - apply Hzero. right. lia. }
    destruct (step_finalizations e w h) as [Hsame | (n & i & _ & _ & Hlive & Hgone & _)].
    + lia.
    + exfalso. destruct Hcase as [[k Hk] | Hge].
      * rewrite Hgone in Hk. discriminate.
      * assert (h < nextHandle w)%nat by (apply Hlt; eauto). lia.
Qed.

Lemma reachable_well_formed (w : World) : reachable w -> well_formed w.
Proof.
  induction 1 as [phase store | e w _ IH].
  - apply well_formed_init.
  - apply well_formed_step, IH.
Qed.







(** C2: [deleteIssue i] assigns the pending set, with [i] marked, before it
    calls [issueService.deleteIssue], in the same turn; and when the
    stream of that call fails with [e], in whatever world the failure is
    delivered, the store is left as it is, [i] is no longer pending, and
    [e] is handed to the error handler. *)
Theorem deleteIssue_marks_then_requests_and_error_clears
    (w : World) (i : Z) (ev : Event) :
  let h := nextHandle w in
  let called := deleteIssue i ev w in
  trace called =
    trace w ++
      [Logging_info "IssueTablesComponent: Deleting Issue " i "";
       Assign_issuesPendingDeletion (<[i := true]> (issuesPendingDeletion w));
       IssueService_deleteIssue i;
       Subscribe h;
       Event_stopPropagation ev]
  /\ issuesPendingDeletion called !! i = Some true
  /\ localStore called = localStore w
  /\ subscriptions called !! h = Some (DeleteIssueSubscriber i)
  /\ forall (later : World) (e : error),
       subscriptions later !! h = Some (DeleteIssueSubscriber i) ->
       let failed := deliver h (Error e) later in
       localStore failed = localStore later
       /\ issuesPendingDeletion failed !! i = None
       /\ trace failed =
            trace later ++
              [ErrorHandling_handleError e;
               Finalize h;
               Assign_issuesPendingDeletion
                 (delete i (issuesPendingDeletion later))].
Proof.
  cbv zeta. rewrite deleteIssue_unfold.
  cbn [trace issuesPendingDeletion localStore subscriptions].
  rewrite !lookup_insert_eq.
  do 4 (split; [reflexivity |]).
  intros later e Hlive. rewrite (deliver_delete_error _ _ _ _ Hlive).
  cbn [trace issuesPendingDeletion localStore].
  split; [reflexivity |]. split; [apply lookup_delete_eq | reflexivity].
Qed.

(** C3: [markAsResponded] and [markAsPending] send to the gateway the
    clone of the issue for the current phase with [status] set to [Done],
    respectively [Incomplete], and write nothing to the store themselves.
    The store is written when the stream delivers a record, and then with
    that record, under its identifier; when the stream fails the store is
    left as it is and the error is handed to the error handler. *)
Theorem status_update_confirm_then_apply
    (w : World) (issue : Issue) (ev : Event) :
  let h := nextHandle w in
  (trace (markAsResponded issue ev w) =
     trace w ++
       [Logging_info "IssueTablesComponent: Marking Issue " (id issue)
          " as Responded";
        IssueService_updateIssue
          (with_status Done (clone (currentPhase w) issue));
        Subscribe h;
        Event_stopPropagation ev]
   /\ localStore (markAsResponded issue ev w) = localStore w
   /\ subscriptions (markAsResponded issue ev w) !! h
      = Some UpdateIssueSubscriber)
  /\ (trace (markAsPending issue ev w) =
        trace w ++
          [Logging_info "IssueTablesComponent: Marking Issue " (id issue)
             " as Pending";
           IssueService_updateIssue
             (with_status Incomplete (clone (currentPhase w) issue));
           Subscribe h;
           Event_stopPropagation ev]
      /\ localStore (markAsPending issue ev w) = localStore w
      /\ subscriptions (markAsPending issue ev w) !! h
         = Some UpdateIssueSubscriber)
  /\ (status (with_status Done (clone (currentPhase w) issue)) = Done
      /\ status (with_status Incomplete (clone (currentPhase w) issue))
         = Incomplete
      /\ forall s, id (with_status s (clone (currentPhase w) issue))
                   = id (clone (currentPhase w) issue)
                /\ attributes (with_status s (clone (currentPhase w) issue))
                   = attributes (clone (currentPhase w) issue))
  /\ forall (later : World) (h' : handle),
       subscriptions later !! h' = Some UpdateIssueSubscriber ->
       (forall updatedIssue,
           localStore (deliver h' (Next updatedIssue) later)
           = <[id updatedIssue := updatedIssue]> (localStore later)
           /\ trace (deliver h' (Next updatedIssue) later)
              = trace later ++ [IssueService_updateLocalStore updatedIssue])
       /\ (forall e,
              localStore (deliver h' (Error e) later) = localStore later
              /\ trace (deliver h' (Error e) later)
                 = trace later ++ [ErrorHandling_handleError e])
       /\ localStore (deliver h' Complete later) = localStore later
          /\ trace (deliver h' Complete later) = trace later.
Proof.
  cbv zeta. rewrite markAsResponded_unfold, markAsPending_unfold.
  cbn [trace localStore subscriptions].
  rewrite !lookup_insert_eq.
  split; [repeat split |]. split; [repeat split |]. split; [repeat split |].
  intros later h' Hlive.
  split; [| split; [| split]].
  - intros updatedIssue. rewrite (deliver_update_next _ _ _ Hlive).
    split; reflexivity.
  - intros e. rewrite (deliver_update_error _ _ _ Hlive). split; reflexivity.
  - rewrite (deliver_update_complete _ _ Hlive). reflexivity.
  - rewrite (deliver_update_complete _ _ Hlive). reflexivity.
Qed.

(** C8: for two distinct identifiers [a] and [b], neither the call
    [deleteIssue a] nor anything delivered to its subscription changes the
    entry of [b] in [issuesPendingDeletion]; in particular, with deletes of
    [a] and of [b] both in flight, the resolution of [a]'s leaves [b]
    marked. *)
Theorem deleteIssue_frame
    (w : World) (a b : Z) (ev ev' : Event) (h : handle)
    (n : notification Issue) :
  a <> b ->
  issuesPendingDeletion (deleteIssue a ev w) !! b
  = issuesPendingDeletion w !! b
  /\ (subscriptions w !! h = Some (DeleteIssueSubscriber a) ->
      issuesPendingDeletion (deliver h n w) !! b
      = issuesPendingDeletion w !! b)
  /\ issuesPendingDeletion
       (deliver (nextHandle w) n (deleteIssue b ev' (deleteIssue a ev w))) !! b
     = Some true.
Proof.
  intros Hdistinct. split; [| split].
  - rewrite deleteIssue_unfold. cbn. apply lookup_insert_ne. exact Hdistinct.
  - intros Hlive. destruct n as [v | err |].
    + rewrite (deliver_delete_next _ _ _ _ Hlive). reflexivity.
    + rewrite (deliver_delete_error _ _ _ _ Hlive). cbn.
      apply lookup_delete_ne. exact Hdistinct.
    + rewrite (deliver_delete_complete _ _ _ Hlive). cbn.
      apply lookup_delete_ne. exact Hdistinct.
  - assert (Hlive :
      subscriptions (deleteIssue b ev' (deleteIssue a ev w)) !! nextHandle w
      = Some (DeleteIssueSubscriber a)).
    { rewrite !deleteIssue_unfold. cbn.
      rewrite lookup_insert_ne by lia. apply lookup_insert_eq. }
    destruct n as [v | err |].
    + rewrite (deliver_delete_next _ _ _ _ Hlive).
      rewrite !deleteIssue_unfold. cbn. apply lookup_insert_eq.
    + rewrite (deliver_delete_error _ _ _ _ Hlive).
      rewrite !deleteIssue_unfold. cbn.
      rewrite lookup_delete_ne by exact Hdistinct. apply lookup_insert_eq.
    + rewrite (deliver_delete_complete _ _ _ Hlive).
      rewrite !deleteIssue_unfold. cbn.
      rewrite lookup_delete_ne by exact Hdistinct. apply lookup_insert_eq.
Qed.

End CardViewProperties.

(** * Properties of the layout header *)

Section HeaderProperties.
Import Header.

Variable Phase_enum : string -> Phase.
Variable getRepository : Phase -> list Repo.

Local Abbreviation routeToSelectedPhase :=
  (routeToSelectedPhase Phase_enum getRepository).
Local Abbreviation step := (step Phase_enum getRepository).
Local Abbreviation run := (run Phase_enum getRepository).
Local Abbreviation reachable := (reachable Phase_enum getRepository).

(** Two worlds with the same fields are the same world. *)
Lemma Header_World_eq (w w' : World) :
  isReloadButtonDisabled w = isReloadButtonDisabled w' ->
  currentPhase w = currentPhase w' ->
  loginId w = loginId w' ->
  now w = now w' ->
  timers w = timers w' ->
  subscriptions w = subscriptions w' ->
  dialogs w = dialogs w' ->
  nextHandle w = nextHandle w' ->
  trace w = trace w' ->
  w = w'.
Proof. destruct w, w'. cbn. intros. subst. reflexivity. Qed.

Ltac header_eq :=
  apply Header_World_eq; cbn; rewrite <- ?app_assoc; reflexivity.

(** ** What each method does to the world *)

Lemma reload_unfold (w : World) :
  reload w =
  mkWorld true (currentPhase w) (loginId w) (now w)
    (timers w ++ [(S (nextHandle w), (now w + 3000)%N)])
    ({[nextHandle w]} ∪ subscriptions w) (dialogs w)
    (S (S (nextHandle w)))
    (trace w ++
       [Assign_isReloadButtonDisabled true;
        GithubEventService_reloadPage;
        Subscribe (nextHandle w);
        SetTimeout (S (nextHandle w)) 3000]).
Proof. header_eq. Qed.

Lemma routeToSelectedPhase_same (openPhase : string) (w : World) :
  currentPhase w = Phase_enum openPhase ->
  routeToSelectedPhase openPhase w = (w, Returned).
Proof.
  intros Hsame. unfold Header.routeToSelectedPhase.
  rewrite decide_True by exact Hsame. reflexivity.
Qed.

Lemma routeToSelectedPhase_throws (openPhase : string) (w : World) :
  currentPhase w <> Phase_enum openPhase ->
  getRepository (Phase_enum openPhase) = [] ->
  routeToSelectedPhase openPhase w =
  (assign_currentPhase (Phase_enum openPhase) w, Threw).
Proof.
  intros Hother Hnone. unfold Header.routeToSelectedPhase.
  rewrite decide_False by exact Hother. cbv zeta.
  change (currentPhase (assign_currentPhase (Phase_enum openPhase) w))
    with (Phase_enum openPhase).
  rewrite Hnone. reflexivity.
Qed.

Lemma routeToSelectedPhase_switches (openPhase : string) (w : World)
    (repo : Repo) (rest : list Repo) :
  currentPhase w <> Phase_enum openPhase ->
  getRepository (Phase_enum openPhase) = repo :: rest ->
  routeToSelectedPhase openPhase w =
  (log (Router_navigateByUrl (Phase_enum openPhase))
     (reload
        (log (IssueService_reset false)
           (log GithubService_reset
              (log (GithubService_storePhaseDetails (owner repo) (name repo))
                 (assign_currentPhase (Phase_enum openPhase) w))))),
   Returned).
Proof.
  intros Hother Hrepo. unfold Header.routeToSelectedPhase.
  rewrite decide_False by exact Hother. cbv zeta.
  change (currentPhase (assign_currentPhase (Phase_enum openPhase) w))
    with (Phase_enum openPhase).
  rewrite Hrepo. f_equal.
Qed.

Lemma switch_world_unfold (p : Phase) (repo : Repo) (w : World) :
  log (Router_navigateByUrl p)
    (reload
       (log (IssueService_reset false)
          (log GithubService_reset
             (log (GithubService_storePhaseDetails (owner repo) (name repo))
                (assign_currentPhase p w))))) =
  mkWorld true p (loginId w) (now w)
    (timers w ++ [(S (nextHandle w), (now w + 3000)%N)])
    ({[nextHandle w]} ∪ subscriptions w) (dialogs w)
    (S (S (nextHandle w)))
    (trace w ++
       [Assign_currentPhase p;
        GithubService_storePhaseDetails (owner repo) (name repo);
        GithubService_reset;
        IssueService_reset false;
        Assign_isReloadButtonDisabled true;
        GithubEventService_reloadPage;
        Subscribe (nextHandle w);
        SetTimeout (S (nextHandle w)) 3000;
        Router_navigateByUrl p]).
Proof. header_eq. Qed.

Lemma openLogOutDialog_unfold (w : World) :
  openLogOutDialog w =
  mkWorld (isReloadButtonDisabled w) (currentPhase w) (loginId w) (now w)
    (timers w) (subscriptions w) ({[nextHandle w]} ∪ dialogs w)
    (S (nextHandle w))
    (trace w ++
       [Dialog_openUserConfirmationModal logOutDialogMessages
          yesButtonDialogMessage noButtonDialogMessage (nextHandle w)]).
Proof. header_eq. Qed.

Lemma reload_deliver_live (h : handle) (n : notification unit) (w : World) :
  h ∈ subscriptions w ->
  deliver h n w =
  match n with
  | Next _ => w
  | Error e =>
      mkWorld (isReloadButtonDisabled w) (currentPhase w) (loginId w) (now w)
        (timers w) (subscriptions w ∖ {[h]}) (dialogs w) (nextHandle w)
        (trace w ++ [ErrorHandling_handleError e (Some RetryReloadPage)])
  | Complete =>
      mkWorld (isReloadButtonDisabled w) (currentPhase w) (loginId w) (now w)
        (timers w) (subscriptions w ∖ {[h]}) (dialogs w) (nextHandle w)
        (trace w)
  end.
Proof.
  intros Hlive. unfold deliver. rewrite decide_True by exact Hlive.
  destruct n; reflexivity.
Qed.

Lemma reload_deliver_closed (h : handle) (n : notification unit) (w : World) :
  h ∉ subscriptions w -> deliver h n w = w.
Proof. intros Hclosed. unfold deliver. rewrite decide_False by exact Hclosed. reflexivity. Qed.

Lemma logOutDialogClosed_open (h : handle) (res : option bool) (w : World) :
  h ∈ dialogs w ->
  dialogClosed h res w =
  if truthy res
  then mkWorld (isReloadButtonDisabled w) (currentPhase w) (loginId w) (now w)
         (timers w) (subscriptions w) (dialogs w ∖ {[h]}) (nextHandle w)
         (trace w ++
            [Logging_info ("Logging out from " +:+ loginId w); Auth_logOut])
  else set_dialogs (dialogs w ∖ {[h]}) w.
Proof.
  intros Hopen. unfold dialogClosed. rewrite decide_True by exact Hopen.
  unfold openLogOutDialog_closed. destruct (truthy res); [| reflexivity].
  header_eq.
Qed.

Lemma logOutDialogClosed_unknown (h : handle) (res : option bool) (w : World) :
  h ∉ dialogs w -> dialogClosed h res w = w.
Proof. intros Hnone. unfold dialogClosed. rewrite decide_False by exact Hnone. reflexivity. Qed.

(** ** Timers *)

Lemma fire_unfold (due : list (handle * N)) (w : World) :
  fire due w =
  mkWorld (match due with [] => isReloadButtonDisabled w | _ => false end)
    (currentPhase w) (loginId w) (now w) (timers w) (subscriptions w)
    (dialogs w) (nextHandle w)
    (trace w ++ map (fun _ => Assign_isReloadButtonDisabled false) due).
Proof.
  revert w. induction due as [| timer due IH]; intros w.
  - apply Header_World_eq; cbn; rewrite ?app_nil_r; reflexivity.
  - change (fire (timer :: due) w) with (fire due (reload_timeout w)).
    rewrite IH.
    apply Header_World_eq; cbn; rewrite <- ?app_assoc;
      try reflexivity.
    destruct due; reflexivity.
Qed.

Lemma advance_unfold (dt : N) (w : World) :
  advance dt w =
  fire (List.filter (is_due (now w + dt)) (timers w))
    (mkWorld (isReloadButtonDisabled w) (currentPhase w) (loginId w)
       (now w + dt)
       (List.filter (fun timer => negb (is_due (now w + dt) timer)) (timers w))
       (subscriptions w) (dialogs w) (nextHandle w) (trace w)).
Proof. reflexivity. Qed.

Lemma occurrences_none {A : Type} (p : A -> bool) (l : list A) :
  (forall a, In a l -> p a = false) -> occurrences p l = 0%nat.
Proof.
  intros Hnone. unfold occurrences.
  induction l as [| a l IH]; [reflexivity |].
  cbn. rewrite (Hnone a) by (left; reflexivity).
  apply IH. intros b Hb. apply Hnone. right. exact Hb.
Qed.

Lemma advance_fields (dt : N) (w : World) :
  now (advance dt w) = (now w + dt)%N
  /\ timers (advance dt w)
     = List.filter (fun timer => negb (is_due (now w + dt) timer)) (timers w)
  /\ subscriptions (advance dt w) = subscriptions w
  /\ refresh_requests (advance dt w) = refresh_requests w
  /\ isReloadButtonDisabled (advance dt w)
     = match List.filter (is_due (now w + dt)) (timers w) with
       | [] => isReloadButtonDisabled w
       | _ => false
       end.
Proof.
  rewrite advance_unfold, fire_unfold.
  cbn [now timers subscriptions isReloadButtonDisabled].
  repeat split; auto.
  unfold refresh_requests. cbn [trace]. rewrite occurrences_app.
  rewrite (occurrences_none is_reloadPage (map _ _)); [lia |].
  intros a Ha. apply in_map_iff in Ha as (timer & <- & _). reflexivity.
Qed.

Lemma filter_none {A : Type} (p : A -> bool) (l : list A) :
  (forall a, In a l -> p a = false) -> List.filter p l = [].
Proof.
  intros Hnone. induction l as [| a l IH]; [reflexivity |].
  cbn. rewrite (Hnone a) by (left; reflexivity).
  apply IH. intros b Hb. apply Hnone. right. exact Hb.
Qed.

Lemma pressReload_disabled (w : World) :
  isReloadButtonDisabled w = true -> pressReload w = w.
Proof. intros Hoff. unfold pressReload. rewrite Hoff. reflexivity. Qed.

(** Passive turns leave the flag, the timers and the clock alone, and
    tear subscriptions down at most. *)
Lemma step_passive (e : event) (w : World) :
  passive e = true ->
  isReloadButtonDisabled (step e w) = isReloadButtonDisabled w
  /\ timers (step e w) = timers w
  /\ now (step e w) = now w
  /\ subscriptions (step e w) ⊆ subscriptions w
  /\ (through_trigger e = true ->
      refresh_requests (step e w) = refresh_requests w).
Proof.
  intros Hpassive.
  destruct e as [| openPhase | | | h res | h n | c | dt]; try discriminate;
    cbn [Header.step].
  - rewrite openLogOutDialog_unfold.
    cbn [isReloadButtonDisabled timers now subscriptions].
    repeat split; auto.
    intros _. unfold refresh_requests. cbn [trace].
    rewrite occurrences_app. cbn. lia.
  - destruct (decide (h ∈ dialogs w)) as [Hopen | Hnone].
    + rewrite (logOutDialogClosed_open _ _ _ Hopen).
      destruct (truthy res);
        cbn [isReloadButtonDisabled timers now subscriptions set_dialogs];
        repeat split; auto.
      intros _. unfold refresh_requests. cbn [trace].
      rewrite occurrences_app. cbn. lia.
    + rewrite (logOutDialogClosed_unknown _ _ _ Hnone). repeat split; auto.
  - destruct (decide (h ∈ subscriptions w)) as [Hlive | Hclosed].
    + rewrite (reload_deliver_live _ _ _ Hlive).
      destruct n as [v | err |];
        cbn [isReloadButtonDisabled timers now subscriptions];
        repeat split; auto;
        try (apply subseteq_difference_l; reflexivity).
      intros _. unfold refresh_requests. cbn [trace].
      rewrite occurrences_app. cbn. lia.
    + rewrite (reload_deliver_closed _ _ _ Hclosed). repeat split; auto.
  - destruct c.
    cbn [invoke log isReloadButtonDisabled timers now subscriptions
         through_trigger].
    repeat split; auto. discriminate.
Qed.

(** While the flag is set and no timer comes due, turns that go through
    the trigger start no refresh and leave the flag set. *)
Lemma trigger_disabled_during (es : list event) (w : World) :
  Forall (fun e => through_trigger e = true) es ->
  isReloadButtonDisabled w = true ->
  (forall h d, In (h, d) (timers w) -> (now w + elapsed es < d)%N) ->
  isReloadButtonDisabled (run es w) = true
  /\ refresh_requests (run es w) = refresh_requests w
  /\ subscriptions (run es w) ⊆ subscriptions w.
Proof.
  revert w. induction es as [| e es IH]; intros w Hes Hoff Htimers.
  - cbn. auto.
  - inversion Hes as [| e' es' He Hes']; subst.
    cbn [Header.run].
    destruct (passive e) eqn:Hpassive.
    + destruct (step_passive e w Hpassive) as (Hflag & Htm & Hnow & Hsubs & Hreq).
      assert (Hsame : elapsed (e :: es) = elapsed es)
        by (destruct e; try discriminate; reflexivity).
      destruct (IH (step e w)) as (IH1 & IH2 & IH3); auto.
      * congruence.
      * rewrite Htm, Hnow, <- Hsame. exact Htimers.
      * rewrite IH2, (Hreq He). repeat split; auto.
        transitivity (subscriptions (step e w)); assumption.
    + destruct e as [| openPhase | | | h res | h n | c | dt]; try discriminate.
      * (* the trigger is pressed while disabled *)
        cbn [Header.step]. rewrite (pressReload_disabled _ Hoff).
        apply IH; auto.
      * (* the clock moves on, no timer is due *)
        cbn [Header.step elapsed] in *.
        destruct (advance_fields dt w) as (Hnow & Htm & Hsubs & Hreq & Hflag).
        assert (Hnone : List.filter (is_due (now w + dt)) (timers w) = []).
        { apply filter_none. intros [h d] Hin. unfold is_due. cbn.
          apply N.leb_gt. specialize (Htimers h d Hin). lia. }
        rewrite Hnone in Hflag.
        destruct (IH (advance dt w)) as (IH1 & IH2 & IH3); auto.
        -- congruence.
        -- intros h d Hin. rewrite Htm in Hin. apply filter_In in Hin as [Hin _].
           rewrite Hnow. specialize (Htimers h d Hin). lia.
        -- rewrite IH2, Hreq, <- Hsubs. auto.
Qed.

(** Without a call of [reload], the flag is clear once a pending timer
    has come due, and stays clear. *)
Lemma reenabled_after (es : list event) (w : World) :
  Forall (fun e => calls_reload e = false) es ->
  (isReloadButtonDisabled w = false \/
   exists h d, In (h, d) (timers w) /\ (now w < d <= now w + elapsed es)%N) ->
  isReloadButtonDisabled (run es w) = false.
Proof.
  revert w. induction es as [| e es IH]; intros w Hes Hcase.
  - cbn in *. destruct Hcase as [Hon | (h & d & _ & Hd)]; [exact Hon | lia].
  - inversion Hes as [| e' es' He Hes']; subst.
    cbn [Header.run].
    destruct (passive e) eqn:Hpassive.
    + destruct (step_passive e w Hpassive) as (Hflag & Htm & Hnow & _).
      assert (Hsame : elapsed (e :: es) = elapsed es)
        by (destruct e; try discriminate; reflexivity).
      apply IH; auto.
      rewrite Hflag, Htm, Hnow, <- Hsame. exact Hcase.
    + destruct e as [| openPhase | | | h res | h n | c | dt]; try discriminate.
      cbn [Header.step elapsed] in *.
      destruct (advance_fields dt w) as (Hnow & Htm & _ & _ & Hflag).
      apply IH; auto.
      destruct Hcase as [Hon | (h & d & Hin & Hd)].
      * left. rewrite Hflag, Hon.
        destruct (List.filter (is_due (now w + dt)) (timers w)); reflexivity.
      * destruct (N.leb_spec d (now w + dt)) as [Hdue | Hwait].
        -- left. rewrite Hflag.
           assert (Hfires : In (h, d) (List.filter (is_due (now w + dt)) (timers w))).
           { apply filter_In. split; [exact Hin |].
             unfold is_due. cbn. apply N.leb_le. exact Hdue. }
           destruct (List.filter (is_due (now w + dt)) (timers w));
             [destruct Hfires | reflexivity].
        -- right. exists h, d. rewrite Htm, Hnow. split; [| lia].
           apply filter_In. split; [exact Hin |].
           unfold is_due. cbn. apply negb_true_iff, N.leb_gt. exact Hwait.
Qed.

Lemma cooling_reload (w : World) : cooling (reload w).
Proof.
  intros _. exists (S (nextHandle w)), (now w + 3000)%N.
  rewrite reload_unfold. cbn [timers now]. split.
  - apply in_or_app. right. left. reflexivity.
  - lia.
Qed.

Lemma cooling_step (e : event) (w : World) : cooling w -> cooling (step e w).
Proof.
  intros Hcool.
  destruct (passive e) eqn:Hpassive.
  { destruct (step_passive e w Hpassive) as (Hflag & Htm & Hnow & _).
    unfold cooling. rewrite Hflag, Htm, Hnow. exact Hcool. }
  destruct e as [| openPhase | | | h res | h n | c | dt]; try discriminate;
    cbn [Header.step].
  - apply cooling_reload.
  - destruct (decide (currentPhase w = Phase_enum openPhase)) as [Hsame | Hother].
    + rewrite (routeToSelectedPhase_same _ _ Hsame). exact Hcool.
    + destruct (getRepository (Phase_enum openPhase)) as [| repo rest] eqn:Hrepo.
      * rewrite (routeToSelectedPhase_throws _ _ Hother Hrepo). exact Hcool.
      * rewrite (routeToSelectedPhase_switches _ _ _ _ Hother Hrepo).
        cbn [fst]. rewrite switch_world_unfold.
        intros _. exists (S (nextHandle w)), (now w + 3000)%N.
        cbn [timers now]. split.
        -- apply in_or_app. right. left. reflexivity.
        -- lia.
  - unfold pressReload. destruct (isReloadButtonDisabled w) eqn:Hflag.
    + exact Hcool.
    + apply cooling_reload.
  - destruct (advance_fields dt w) as (Hnow & Htm & _ & _ & Hflag).
    intros Hoff. rewrite Hflag in Hoff.
    destruct (List.filter (is_due (now w + dt)) (timers w)) eqn:Hdue;
      [| discriminate].
    destruct (Hcool Hoff) as (h & d & Hin & Hd).
    assert (Hwait : is_due (now w + dt) (h, d) = false).
    { destruct (is_due (now w + dt) (h, d)) eqn:His; [| reflexivity].
      assert (Hfires : In (h, d) (List.filter (is_due (now w + dt)) (timers w)))
        by (apply filter_In; auto).
      rewrite Hdue in Hfires. destruct Hfires. }
    exists h, d. rewrite Htm, Hnow. split.
    + apply filter_In. split; [exact Hin |]. rewrite Hwait. reflexivity.
    + unfold is_due in Hwait. cbn in Hwait. apply N.leb_gt in Hwait. lia.
Qed.

Lemma reachable_cooling (w : World) : reachable w -> cooling w.
Proof.
  induction 1 as [phase user | e w _ IH].
  - intros Hoff. discriminate.
  - apply cooling_step, IH.
Qed.

(** A subscription stays live until its resolution is delivered. *)
Lemma reload_step_keeps_live (e : event) (w : World) (h : handle) :
  h ∈ subscriptions w ->
  (forall n, e = Deliver h n -> is_terminal n = false) ->
  h ∈ subscriptions (step e w).
Proof.
  intros Hlive Hopen.
  destruct e as [| openPhase | | | h' res | h' n | c | dt]; cbn [Header.step].
  - rewrite reload_unfold. cbn [subscriptions]. set_solver.
  - destruct (decide (currentPhase w = Phase_enum openPhase)) as [Hsame | Hother].
    + rewrite (routeToSelectedPhase_same _ _ Hsame). exact Hlive.
    + destruct (getRepository (Phase_enum openPhase)) as [| repo rest] eqn:Hrepo.
      * rewrite (routeToSelectedPhase_throws _ _ Hother Hrepo). exact Hlive.
      * rewrite (routeToSelectedPhase_switches _ _ _ _ Hother Hrepo).
        cbn [fst]. rewrite switch_world_unfold. cbn [subscriptions].
        set_solver.
  - unfold pressReload. destruct (isReloadButtonDisabled w); [exact Hlive |].
    rewrite reload_unfold. cbn [subscriptions]. set_solver.
  - exact Hlive.
  - destruct (decide (h' ∈ dialogs w)) as [Hd | Hd].
    + rewrite (logOutDialogClosed_open _ _ _ Hd). destruct (truthy res); exact Hlive.
    + rewrite (logOutDialogClosed_unknown _ _ _ Hd). exact Hlive.
  - destruct (decide (h' ∈ subscriptions w)) as [Hl | Hc].
    + rewrite (reload_deliver_live _ _ _ Hl).
      destruct (decide (h' = h)) as [-> | Hother].
      * specialize (Hopen n eq_refl). destruct n; try discriminate. exact Hlive.
      * destruct n; cbn [subscriptions]; set_solver.
    + rewrite (reload_deliver_closed _ _ _ Hc). exact Hlive.
  - destruct c. exact Hlive.
  - destruct (advance_fields dt w) as (_ & _ & Hsubs & _). rewrite Hsubs. exact Hlive.
Qed.

Lemma reload_run_keeps_live (es : list event) (w : World) (h : handle) :
  h ∈ subscriptions w -> unresolved h es -> h ∈ subscriptions (run es w).
Proof.
  revert w. induction es as [| e es IH]; intros w Hlive Hopen; cbn.
  - exact Hlive.
  - apply IH.
    + apply reload_step_keeps_live; auto.
      intros n ->. apply Hopen. left. reflexivity.
    + intros n Hin. apply Hopen. right. exact Hin.
Qed.

(** C4, the claim as written fails: [reload] has no guard of its own.
    Called a second time 100 ms after the first, with the trigger still
    disabled and the first refresh still in flight, it starts a second
    refresh, which is in flight next to the first. *)
Lemma reload_while_disabled_starts_second_refresh :
  let reloading := advance 100 (reload (init None "user")) in
  let again := reload reloading in
  isReloadButtonDisabled reloading = true
  /\ refresh_requests reloading = 1%nat
  /\ 0%nat ∈ subscriptions reloading
  /\ refresh_requests again = 2%nat
  /\ 0%nat ∈ subscriptions again /\ 2%nat ∈ subscriptions again
  /\ again <> reloading.
Proof.
  cbv zeta.
  assert (Hfirst :
    advance 100 (reload (init None "user")) =
    mkWorld true None "user" 100 [(1%nat, 3000%N)] {[0%nat]} ∅ 2%nat
      [Assign_isReloadButtonDisabled true; GithubEventService_reloadPage;
       Subscribe 0%nat; SetTimeout 1%nat 3000]).
  { rewrite advance_unfold, reload_unfold. cbn.
    apply Header_World_eq; cbn; reflexivity. }
  rewrite Hfirst, reload_unfold. cbn. repeat split; try set_solver.
Qed.

(** C4, amended: every call of [reload], also one made while the trigger
    is disabled, first sets [isReloadButtonDisabled] and then starts one
    refresh.  What keeps refreshes apart is the trigger of the view: while
    [isReloadButtonDisabled] holds, pressing it does nothing; and when no
    timer is pending at the call of [reload], then during the 3000 ms that
    follow the flag stays set and turns that reach [reload] through the
    trigger only start no further refresh. *)
Theorem reload_restarts_unless_trigger_disabled (w : World) (es : list event) :
  (trace (reload w) =
     trace w ++
       [Assign_isReloadButtonDisabled true;
        GithubEventService_reloadPage;
        Subscribe (nextHandle w);
        SetTimeout (S (nextHandle w)) 3000]
   /\ refresh_requests (reload w) = S (refresh_requests w)
   /\ nextHandle w ∈ subscriptions (reload w)
   /\ isReloadButtonDisabled (reload w) = true)
  /\ (isReloadButtonDisabled w = true -> pressReload w = w)
  /\ (timers w = [] ->
      Forall (fun e => through_trigger e = true) es ->
      (elapsed es < 3000)%N ->
      isReloadButtonDisabled (run es (reload w)) = true
      /\ refresh_requests (run es (reload w)) = refresh_requests (reload w)
      /\ subscriptions (run es (reload w)) ⊆ subscriptions (reload w)).
Proof.
  split; [| split].
  - rewrite reload_unfold. unfold refresh_requests.
    cbn [trace subscriptions isReloadButtonDisabled].
    rewrite occurrences_app. repeat split; auto.
    + cbn. lia.
    + set_solver.
  - apply pressReload_disabled.
  - intros Hidle Hes Hshort.
    apply trigger_disabled_during;
      [exact Hes | rewrite reload_unfold; reflexivity |].
    rewrite reload_unfold. cbn [timers now]. rewrite Hidle.
    intros h d [Heq | []]. inversion Heq; subst.
    lia.
Qed.


(** C6: [reload] disables the trigger and sets a timer that is due 3000 ms
    later.  Whatever the refresh then delivers, a value, an error or a
    completion, or nothing at all, and whatever else happens short of a
    further call of [reload], the trigger is enabled once 3000 ms have
    passed.  So the trigger is never stuck: in every world the component
    can be in, it is enabled once the clock has moved on by 3000 ms. *)
Theorem reload_trigger_reenabled (w : World) (es : list event) :
  Forall (fun e => calls_reload e = false) es ->
  (3000 <= elapsed es)%N ->
  isReloadButtonDisabled (reload w) = true
  /\ In (S (nextHandle w), (now w + 3000)%N) (timers (reload w))
  /\ isReloadButtonDisabled (run es (reload w)) = false
  /\ forall w' : World,
       reachable w' -> isReloadButtonDisabled (advance 3000 w') = false.
Proof.
  intros Hquiet Hlong.
  assert (Hnever : forall w' : World,
    reachable w' -> isReloadButtonDisabled (advance 3000 w') = false).
  { intros w' Hreach.
    apply (reenabled_after [Advance 3000] w'); [repeat constructor |].
    destruct (isReloadButtonDisabled w') eqn:Hflag; [right | left; reflexivity].
    destruct (reachable_cooling w' Hreach Hflag) as (h & d & Hin & Hd).
    exists h, d. split; [exact Hin |].
    cbn [elapsed]. lia. }
  cut (isReloadButtonDisabled (reload w) = true
       /\ In (S (nextHandle w), (now w + 3000)%N) (timers (reload w))
       /\ isReloadButtonDisabled (run es (reload w)) = false);
    [intros (H1 & H2 & H3); auto |].
  assert (Htimer : In (S (nextHandle w), (now w + 3000)%N) (timers (reload w))).
  { rewrite reload_unfold. cbn [timers]. apply in_or_app. right. left. reflexivity. }
  split; [rewrite reload_unfold; reflexivity |].
  split; [exact Htimer |].
  apply reenabled_after; [exact Hquiet |].
  right. exists (S (nextHandle w)), (now w + 3000)%N.
  split; [exact Htimer |].
  assert (Hnow : now (reload w) = now w) by (rewrite reload_unfold; reflexivity).
  rewrite Hnow. lia.
Qed.

(** C7: the subscription that [reload] makes stays live until its
    resolution is delivered; when the refresh then fails with [e], the
    error handler is called with [e] and with the retry closure, and with
    nothing else; the retry closure, when it is run, calls the refresh
    operation once, at once: no timer is set and the clock does not move. *)
Theorem reload_failure_surfaced_with_retry
    (w : World) (es : list event) (e : error) :
  unresolved (nextHandle w) es ->
  let h := nextHandle w in
  let inflight := run es (reload w) in
  h ∈ subscriptions inflight
  /\ trace (deliver h (Error e) inflight) =
       trace inflight ++ [ErrorHandling_handleError e (Some RetryReloadPage)]
  /\ forall w' : World,
       trace (invoke RetryReloadPage w') =
         trace w' ++ [GithubEventService_reloadPage]
       /\ refresh_requests (invoke RetryReloadPage w') = S (refresh_requests w')
       /\ timers (invoke RetryReloadPage w') = timers w'
       /\ now (invoke RetryReloadPage w') = now w'.
Proof.
  intros Hopen h inflight.
  assert (Hlive : h ∈ subscriptions inflight).
  { apply reload_run_keeps_live; [| exact Hopen].
    rewrite reload_unfold. cbn [subscriptions]. set_solver. }
  split; [exact Hlive |]. split.
  - rewrite (reload_deliver_live _ _ _ Hlive). reflexivity.
  - intros w'. cbn [invoke log trace timers now]. repeat split; auto.
    unfold refresh_requests. cbn [invoke log trace].
    rewrite occurrences_app. cbn. lia.
Qed.

End HeaderProperties.

(** * Confirmation dialogs *)

Section Confirmation.

Lemma truthy_true (res : option bool) : truthy res = true <-> res = Some true.
Proof.
  destruct res as [[|] |]; cbn; split; intros H; congruence.
Qed.

(** C9: opening a confirmation dialog deletes nothing and logs nobody
    out.  When the dialog of [openDeleteDialog i] closes, [deleteIssue i]
    runs if the result is [true], and the component does nothing if it is
    [false] or if the dialog was dismissed; when the dialog of
    [openLogOutDialog] closes, [logOut] runs if the result is [true], and
    the component does nothing otherwise. *)
Theorem destructive_actions_run_iff_confirmed
    (cw : CardView.World) (hw : Header.World) (h h' : handle)
    (i : Z) (ev : Event) (res : option bool) :
  CardView.dialogs cw !! h = Some (i, ev) ->
  h' ∈ Header.dialogs hw ->
  (CardView.dialogs (CardView.openDeleteDialog i ev cw)
     !! CardView.nextHandle cw = Some (i, ev)
   /\ CardView.delete_requests i (CardView.openDeleteDialog i ev cw)
      = CardView.delete_requests i cw
   /\ Header.nextHandle hw ∈ Header.dialogs (Header.openLogOutDialog hw)
   /\ Header.logouts (Header.openLogOutDialog hw) = Header.logouts hw)
  /\ (res = Some true ->
      CardView.dialogClosed h res cw =
        CardView.deleteIssue i ev
          (CardView.log (CardView.Logging_info "Deleting issue " i "")
             (CardView.set_dialogs (delete h (CardView.dialogs cw)) cw))
      /\ Header.dialogClosed h' res hw =
           Header.logOut
             (Header.log
                (Header.Logging_info ("Logging out from " +:+ Header.loginId hw))
                (Header.set_dialogs (Header.dialogs hw ∖ {[h']}) hw)))
  /\ (res <> Some true ->
      CardView.dialogClosed h res cw =
        CardView.set_dialogs (delete h (CardView.dialogs cw)) cw
      /\ Header.dialogClosed h' res hw =
           Header.set_dialogs (Header.dialogs hw ∖ {[h']}) hw)
  /\ (CardView.delete_requests i (CardView.dialogClosed h res cw)
      = S (CardView.delete_requests i cw) <-> res = Some true)
  /\ (Header.logouts (Header.dialogClosed h' res hw)
      = S (Header.logouts hw) <-> res = Some true).
Proof.
  intros Hcard Hheader.
  assert (Hyes_card :
    CardView.dialogClosed h (Some true) cw =
      CardView.deleteIssue i ev
        (CardView.log (CardView.Logging_info "Deleting issue " i "")
           (CardView.set_dialogs (delete h (CardView.dialogs cw)) cw))).
  { rewrite (dialogClosed_open _ _ _ _ _ Hcard). reflexivity. }
  assert (Hyes_header :
    Header.dialogClosed h' (Some true) hw =
      Header.logOut
        (Header.log
           (Header.Logging_info ("Logging out from " +:+ Header.loginId hw))
           (Header.set_dialogs (Header.dialogs hw ∖ {[h']}) hw))).
  { unfold Header.dialogClosed. rewrite decide_True by exact Hheader.
    reflexivity. }
  assert (Hno_card : res <> Some true ->
    CardView.dialogClosed h res cw =
      CardView.set_dialogs (delete h (CardView.dialogs cw)) cw).
  { intros Hno. rewrite (dialogClosed_open _ _ _ _ _ Hcard).
    destruct res as [[|] |]; [congruence | reflexivity | reflexivity]. }
  assert (Hno_header : res <> Some true ->
    Header.dialogClosed h' res hw =
      Header.set_dialogs (Header.dialogs hw ∖ {[h']}) hw).
  { intros Hno. unfold Header.dialogClosed.
    rewrite decide_True by exact Hheader.
    destruct res as [[|] |]; [congruence | reflexivity | reflexivity]. }
  split; [| split; [| split; [| split]]].
  - repeat split.
    + rewrite openDeleteDialog_unfold. cbn [CardView.dialogs].
      apply lookup_insert_eq.
    + rewrite openDeleteDialog_unfold. unfold CardView.delete_requests.
      cbn [CardView.trace]. rewrite occurrences_app. cbn. lia.
    + rewrite openLogOutDialog_unfold. cbn [Header.dialogs]. set_solver.
    + rewrite openLogOutDialog_unfold. unfold Header.logouts.
      cbn [Header.trace]. rewrite occurrences_app. cbn. lia.
  - intros ->. split; [exact Hyes_card | exact Hyes_header].
  - intros Hno. split; [apply Hno_card | apply Hno_header]; exact Hno.
  - destruct (decide (res = Some true)) as [-> | Hno].
    + split; [reflexivity | intros _].
      rewrite Hyes_card, deleteIssue_unfold. unfold CardView.delete_requests.
      cbn [CardView.trace CardView.log CardView.set_dialogs].
      rewrite !occurrences_app. unfold occurrences. cbn.
      rewrite bool_decide_eq_true_2 by reflexivity. cbn. lia.
    + split; [| congruence].
      rewrite (Hno_card Hno). unfold CardView.delete_requests.
      cbn [CardView.trace CardView.set_dialogs]. lia.
  - destruct (decide (res = Some true)) as [-> | Hno].
    + split; [reflexivity | intros _].
      rewrite (logOutDialogClosed_open _ _ _ Hheader). cbn [truthy].
      unfold Header.logouts. cbn [Header.trace].
      rewrite occurrences_app. cbn. lia.
    + split; [| congruence].
      rewrite (Hno_header Hno). unfold Header.logouts.
      cbn [Header.trace Header.set_dialogs]. lia.
Qed.

End Confirmation.

(** * The scenarios of the specification *)

Section Scenarios.
Import Sample.


(** Scenario B: [deleteIssue 1], then the gateway fails. *)
Lemma deleteIssue_marks_then_requests_and_error_clears_witness :
  let called := CardView.deleteIssue 1 7%nat cards in
  let failed := CardView.deliver 0%nat (Error "offline") called in
  CardView.issuesPendingDeletion called !! 1 = Some true
  /\ CardView.localStore failed = CardView.localStore called
  /\ CardView.issuesPendingDeletion failed !! 1 = None.
Proof.
  cbv zeta.
  destruct (deleteIssue_marks_then_requests_and_error_clears cards 1 7%nat)
    as (_ & Hmarked & _ & Hlive & Hfail).
  destruct (Hfail (CardView.deleteIssue 1 7%nat cards) "offline" Hlive)
    as (Hstore & Hcleared & _).
  split; [exact Hmarked | split; [exact Hstore | exact Hcleared]].
Defined.

(** Scenario A: record 1 is [Incomplete]; [markAsResponded], and the
    gateway answers with the record marked [Done]. *)
Lemma status_update_confirm_then_apply_witness :
  let called := CardView.markAsResponded copy issue1 7%nat cards in
  CardView.localStore called = CardView.localStore cards
  /\ CardView.localStore (CardView.deliver 0%nat (Next issue1_done) called)
     = <[1 := issue1_done]> (CardView.localStore called)
  /\ CardView.localStore (CardView.deliver 0%nat (Error "offline") called)
     = CardView.localStore called.
Proof.
  cbv zeta.
  destruct (status_update_confirm_then_apply copy cards issue1 7%nat)
    as ((_ & Hstore & Hlive) & _ & _ & Hlater).
  destruct (Hlater (CardView.markAsResponded copy issue1 7%nat cards) 0%nat Hlive)
    as (Hnext & Herror & _).
  split; [exact Hstore |].
  split; [exact (proj1 (Hnext issue1_done)) | exact (proj1 (Herror "offline"))].
Defined.

(** Deletes of 1 and of 2 in flight; the first one fails. *)
Lemma deleteIssue_frame_witness :
  CardView.issuesPendingDeletion
    (CardView.deliver 0%nat (Error "offline")
       (CardView.deleteIssue 2 8%nat (CardView.deleteIssue 1 7%nat cards))) !! 2
  = Some true.
Proof.
  assert (Hdistinct : 1 <> 2) by lia.
  exact (proj2 (proj2 (deleteIssue_frame cards 1 2 7%nat 8%nat 0%nat
                         (Error "offline") Hdistinct))).
Defined.

(** Scenario E: the trigger is pressed twice within 100 ms of a reload. *)
Lemma reload_restarts_unless_trigger_disabled_witness :
  let es := [Header.PressReload; Header.Advance 100; Header.PressReload] in
  Header.refresh_requests
    (Header.run Phase_enum getRepository es (Header.reload header))
  = Header.refresh_requests (Header.reload header).
Proof.
  cbv zeta.
  destruct (reload_restarts_unless_trigger_disabled Phase_enum getRepository
              header
              [Header.PressReload; Header.Advance 100; Header.PressReload])
    as (_ & _ & Hwindow).
  apply Hwindow.
  - reflexivity.
  - repeat constructor.
  - cbn. lia.
Defined.

(** The refresh fails at once; three seconds later the trigger is
    enabled. *)
Lemma reload_trigger_reenabled_witness :
  Header.isReloadButtonDisabled
    (Header.run Phase_enum getRepository
       [Header.Deliver 0%nat (Error "offline"); Header.Advance 3000]
       (Header.reload header))
  = false.
Proof.
  assert (Hquiet :
    Forall (fun e => Header.calls_reload e = false)
      [Header.Deliver 0%nat (Error "offline"); Header.Advance 3000])
    by (repeat constructor).
  assert (Hlong :
    (3000 <= Header.elapsed
               [Header.Deliver 0%nat (Error "offline"); Header.Advance 3000])%N)
    by (cbn; lia).
  exact (proj1 (proj2 (proj2 (reload_trigger_reenabled Phase_enum
                                getRepository header _ Hquiet Hlong)))).
Defined.

(** The refresh delivers a value after half a second and fails then. *)
Lemma reload_failure_surfaced_with_retry_witness :
  let inflight :=
    Header.run Phase_enum getRepository
      [Header.Advance 500; Header.Deliver 0%nat (Next tt)]
      (Header.reload header) in
  Header.trace (Header.deliver 0%nat (Error "offline") inflight)
  = Header.trace inflight
    ++ [Header.ErrorHandling_handleError "offline"
          (Some Header.RetryReloadPage)].
Proof.
  cbv zeta.
  assert (Hopen :
    Header.unresolved 0%nat [Header.Advance 500; Header.Deliver 0%nat (Next tt)]).
  { intros n [Heq | [Heq | []]]; inversion Heq. reflexivity. }
  exact (proj1 (proj2 (reload_failure_surfaced_with_retry Phase_enum
                         getRepository header _ "offline" Hopen))).
Defined.

(** Both dialogs are open and are answered with "yes". *)
Lemma destructive_actions_run_iff_confirmed_witness :
  let cw := CardView.openDeleteDialog 1 7%nat cards in
  let hw := Header.openLogOutDialog header in
  CardView.delete_requests 1 (CardView.dialogClosed 0%nat (Some true) cw)
  = S (CardView.delete_requests 1 cw)
  /\ Header.logouts (Header.dialogClosed 0%nat (Some true) hw)
     = S (Header.logouts hw).
Proof.
  cbv zeta.
  assert (Hcard :
    CardView.dialogs (CardView.openDeleteDialog 1 7%nat cards) !! 0%nat
    = Some (1, 7%nat)) by reflexivity.
  assert (Hheader :
    0%nat ∈ Header.dialogs (Header.openLogOutDialog header)).
  { rewrite openLogOutDialog_unfold. cbn. set_solver. }
  destruct (destructive_actions_run_iff_confirmed _ _ _ _ _ _ (Some true)
              Hcard Hheader) as (_ & _ & _ & Hdelete & Hlogout).
  split; [apply Hdelete | apply Hlogout]; reflexivity.
Defined.

End Scenarios.

(** * Properties of the string operations *)

Section JsStringProperties.
Import Text JsString.

Lemma split_nonempty (c : code_unit) (s : js_string) : split c s <> [].
Proof.
  destruct s as [| d s']; cbn; [discriminate |].
  destruct (d =? c)%N; [discriminate |].
  destruct (split c s'); discriminate.
Qed.

(** Joining the pieces of a string with the separator gives the string
    back. *)
Lemma join_split (c : code_unit) (s : js_string) : join c (split c s) = s.
Proof.
  induction s as [| d s' IH]; [reflexivity |].
  cbn [split]. destruct (N.eqb_spec d c) as [-> | Hother].
  - pose proof (split_nonempty c s') as Hne.
    destruct (split c s') as [| piece pieces] eqn:Hsplit; [congruence |].
    cbn [join app]. cbn [join] in IH. rewrite IH. reflexivity.
  - pose proof (split_nonempty c s') as Hne.
    destruct (split c s') as [| piece pieces] eqn:Hsplit; [congruence |].
    cbn [join] in *. destruct pieces as [| piece' pieces'].
    + rewrite IH. reflexivity.
    + cbn [app]. rewrite IH. reflexivity.
Qed.

(** No piece holds the separator. *)
Lemma split_pieces (c : code_unit) (s : js_string) (piece : js_string) :
  In piece (split c s) -> ~ In c piece.
Proof.
  revert piece. induction s as [| d s' IH]; intros piece Hin.
  - destruct Hin as [<- | []]. intros [].
  - cbn [split] in Hin. destruct (N.eqb_spec d c) as [-> | Hother].
    + destruct Hin as [<- | Hin]; [intros [] | apply IH; exact Hin].
    + destruct (split c s') as [| first rest] eqn:Hsplit.
      * destruct Hin as [<- | []]. intros [Heq | []]. congruence.
      * destruct Hin as [<- | Hin].
        -- intros [Heq | Hc]; [congruence |].
           apply (IH first); [left; reflexivity | exact Hc].
        -- apply IH. right. exact Hin.
Qed.

Lemma split_whole (c : code_unit) (piece : js_string) :
  ~ In c piece -> split c piece = [piece].
Proof.
  induction piece as [| d piece IH]; intros Hfree; [reflexivity |].
  cbn [split]. destruct (N.eqb_spec d c) as [-> | Hother].
  - exfalso. apply Hfree. left. reflexivity.
  - rewrite IH; [reflexivity |]. intros Hc. apply Hfree. right. exact Hc.
Qed.

Lemma split_app (c : code_unit) (piece rest : js_string) :
  ~ In c piece -> split c (piece ++ c :: rest) = piece :: split c rest.
Proof.
  induction piece as [| d piece IH]; intros Hfree.
  - cbn. rewrite N.eqb_refl. reflexivity.
  - cbn [app split]. destruct (N.eqb_spec d c) as [-> | Hother].
    + exfalso. apply Hfree. left. reflexivity.
    + rewrite IH; [reflexivity |]. intros Hc. apply Hfree. right. exact Hc.
Qed.

(** Splitting what was joined gives the pieces back, when no piece holds
    the separator. *)
Lemma split_join (c : code_unit) (pieces : list js_string) :
  pieces <> [] ->
  (forall piece, In piece pieces -> ~ In c piece) ->
  split c (join c pieces) = pieces.
Proof.
  induction pieces as [| piece pieces IH]; intros Hne Hfree; [congruence |].
  destruct pieces as [| piece' pieces'].
  - cbn [join]. apply split_whole, Hfree. left. reflexivity.
  - change (join c (piece :: piece' :: pieces'))
      with (piece ++ c :: join c (piece' :: pieces')).
    rewrite split_app by (apply Hfree; left; reflexivity).
    rewrite IH; [reflexivity | discriminate |].
    intros w Hw. apply Hfree. right. exact Hw.
Qed.

Lemma length_join_le (c : code_unit) (f : js_string -> js_string)
    (pieces : list js_string) :
  (forall piece, (length (f piece) <= length piece)%nat) ->
  (length (join c (map f pieces)) <= length (join c pieces))%nat.
Proof.
  intros Hshrink. induction pieces as [| piece pieces IH]; [reflexivity |].
  destruct pieces as [| piece' pieces']; [apply Hshrink |].
  change (join c (map f (piece :: piece' :: pieces')))
    with (f piece ++ c :: join c (map f (piece' :: pieces'))).
  change (join c (piece :: piece' :: pieces'))
    with (piece ++ c :: join c (piece' :: pieces')).
  rewrite !length_app. cbn [length].
  specialize (Hshrink piece). lia.
Qed.

Lemma substring_prefix (s : js_string) (n : nat) :
  substring s 0 (Z.of_nat n) = firstn n s.
Proof.
  unfold substring, clip.
  replace (Z.min (Z.min (Z.max 0 0) (Z.of_nat (length s))) _) with 0 by lia.
  change (Z.to_nat 0) with 0%nat. rewrite skipn_O.
  destruct (Nat.le_gt_cases n (length s)) as [Hle | Hgt].
  - replace (Z.to_nat _) with n by lia. reflexivity.
  - replace (Z.to_nat _) with (length s) by lia.
    rewrite !firstn_all2 by lia. reflexivity.
Qed.

Lemma substring_from_suffix (s : js_string) (n : nat) :
  substring_from s (Z.of_nat n) = skipn n s.
Proof.
  unfold substring_from, substring, clip.
  destruct (Nat.le_gt_cases n (length s)) as [Hle | Hgt].
  - replace (Z.to_nat (Z.min _ _)) with n by lia.
    apply firstn_all2. rewrite length_skipn. lia.
  - replace (Z.to_nat (Z.min _ _)) with (length s) by lia.
    rewrite !skipn_all2 by lia. apply firstn_nil.
Qed.

Lemma indexOf_absent (c : code_unit) (s : js_string) :
  ~ In c s -> indexOf c s = -1.
Proof.
  induction s as [| d s' IH]; intros Hfree; [reflexivity |].
  cbn [indexOf]. destruct (N.eqb_spec d c) as [-> | Hother].
  - exfalso. apply Hfree. left. reflexivity.
  - rewrite IH; [reflexivity |]. intros Hc. apply Hfree. right. exact Hc.
Qed.

Lemma indexOf_first (c : code_unit) (before after : js_string) :
  ~ In c before ->
  indexOf c (before ++ c :: after) = Z.of_nat (length before).
Proof.
  induction before as [| d before IH]; intros Hfree.
  - cbn. rewrite N.eqb_refl. reflexivity.
  - cbn [app indexOf]. destruct (N.eqb_spec d c) as [-> | Hother].
    + exfalso. apply Hfree. left. reflexivity.
    + rewrite IH by (intros Hc; apply Hfree; right; exact Hc).
      destruct (Z.ltb_spec (Z.of_nat (length before)) 0); cbn [length]; lia.
Qed.

End JsStringProperties.

(** * Properties of what a card displays *)

Section CardDisplayProperties.
Import Text JsString CardDisplay.

Lemma fitWord_short (word : js_string) :
  (length word <= 43)%nat -> fitWord word = word.
Proof.
  intros Hshort. unfold fitWord, MAX_WORD_LENGTH.
  destruct (Z.ltb_spec 43 (Z.of_nat (length word))); [lia | reflexivity].
Qed.

Lemma fitWord_long (word : js_string) :
  (43 < length word)%nat -> fitWord word = firstn 38 word ++ ELLIPSES.
Proof.
  intros Hlong. unfold fitWord, MAX_WORD_LENGTH.
  destruct (Z.ltb_spec 43 (Z.of_nat (length word))); [| lia].
  change (43 - 5) with (Z.of_nat 38). rewrite substring_prefix. reflexivity.
Qed.

Lemma fitWord_long_length (word : js_string) :
  (43 < length word)%nat -> length (fitWord word) = 41%nat.
Proof.
  intros Hlong. rewrite (fitWord_long _ Hlong).
  rewrite length_app, length_firstn.
  change (length ELLIPSES) with 3%nat. lia.
Qed.

Lemma fitWord_length (word : js_string) :
  (length (fitWord word) <= 43)%nat
  /\ (length (fitWord word) <= length word)%nat.
Proof.
  destruct (Nat.le_gt_cases (length word) 43) as [Hshort | Hlong].
  - rewrite (fitWord_short _ Hshort). lia.
  - rewrite (fitWord_long_length _ Hlong). lia.
Qed.

Lemma fitWord_fixed (word : js_string) :
  fitWord word = word -> (length word <= 43)%nat.
Proof.
  intros Hfixed. destruct (Nat.le_gt_cases (length word) 43) as [| Hlong];
    [assumption |].
  apply (f_equal (@length _)) in Hfixed.
  rewrite (fitWord_long_length _ Hlong) in Hfixed. lia.
Qed.

Lemma fitWord_idempotent (word : js_string) :
  fitWord (fitWord word) = fitWord word.
Proof. apply fitWord_short, fitWord_length. Qed.

(** A word without a space stays without one. *)
Lemma fitWord_no_space (word : js_string) :
  ~ In SPLITTER_TEXT word -> ~ In SPLITTER_TEXT (fitWord word).
Proof.
  intros Hfree. destruct (Nat.le_gt_cases (length word) 43) as [Hshort | Hlong].
  - rewrite (fitWord_short _ Hshort). exact Hfree.
  - rewrite (fitWord_long _ Hlong). intros Hin.
    apply in_app_or in Hin as [Hin | Hin].
    + apply Hfree. rewrite <- (firstn_skipn 38 word).
      apply in_or_app. left. exact Hin.
    + cbn in Hin. unfold SPLITTER_TEXT in Hin.
      destruct Hin as [Heq | [Heq | [Heq | []]]]; discriminate.
Qed.

Lemma fitted_words (title : js_string) :
  split SPLITTER_TEXT (fitTitleText title)
  = map fitWord (split SPLITTER_TEXT title).
Proof.
  unfold fitTitleText. apply split_join.
  - pose proof (split_nonempty SPLITTER_TEXT title).
    destruct (split SPLITTER_TEXT title); [congruence | discriminate].
  - intros piece Hin. apply in_map_iff in Hin as (word & <- & Hword).
    apply fitWord_no_space. apply (split_pieces _ _ _ Hword).
Qed.

(** X1: the words of the fitted title are the words of the title, in their
    order, each one kept when it has at most 43 code units and cut to its
    first 38 followed by ['...'] when it has more; so no word of the
    fitted title has more than 43 code units. *)
Theorem fitTitleText_words (title : js_string) :
  split SPLITTER_TEXT (fitTitleText title)
  = map fitWord (split SPLITTER_TEXT title)
  /\ (forall word,
        ((length word <= 43)%nat -> fitWord word = word)
        /\ ((43 < length word)%nat ->
            fitWord word = firstn 38 word ++ ELLIPSES
            /\ length (fitWord word) = 41%nat))
  /\ Forall (fun word => (length word <= 43)%nat)
       (split SPLITTER_TEXT (fitTitleText title)).
Proof.
  split; [apply fitted_words |]. split.
  - intros word. split; [apply fitWord_short |].
    intros Hlong. split; [apply fitWord_long | apply fitWord_long_length];
      exact Hlong.
  - rewrite fitted_words. apply List.Forall_forall. intros piece Hin.
    apply in_map_iff in Hin as (word & <- & _). apply fitWord_length.
Qed.

(** X2: the title comes back as it is exactly when none of its words has more
    than 43 code units; runs of spaces and spaces at either end are kept. *)
Theorem fitTitleText_unchanged_iff (title : js_string) :
  fitTitleText title = title
  <-> Forall (fun word => (length word <= 43)%nat)
        (split SPLITTER_TEXT title).
Proof.
  split.
  - intros Hfixed. pose proof (fitted_words title) as Hwords.
    rewrite Hfixed in Hwords.
    apply List.Forall_forall. intros word Hin. apply fitWord_fixed.
    revert Hin. generalize dependent (split SPLITTER_TEXT title).
    intros words Hwords. induction words as [| w words IH]; [intros [] |].
    cbn in Hwords. injection Hwords as Hw Hrest.
    intros [<- | Hin]; [symmetry; exact Hw | apply IH; auto].
  - intros Hshort. unfold fitTitleText.
    rewrite <- (join_split SPLITTER_TEXT title) at 2. f_equal.
    rewrite <- (map_id (split SPLITTER_TEXT title)) at 2.
    apply map_ext_in. intros word Hin.
    apply fitWord_short. rewrite List.Forall_forall in Hshort. apply Hshort, Hin.
Qed.

(** X3: fitting a fitted title changes nothing. *)
Theorem fitTitleText_idempotent (title : js_string) :
  fitTitleText (fitTitleText title) = fitTitleText title.
Proof.
  unfold fitTitleText at 1. rewrite fitted_words, map_map.
  unfold fitTitleText. f_equal. apply map_ext. apply fitWord_idempotent.
Qed.

(** X4: the fitted title is never longer than the title, and has as many
    words. *)
Theorem fitTitleText_never_longer (title : js_string) :
  (length (fitTitleText title) <= length title)%nat
  /\ length (split SPLITTER_TEXT (fitTitleText title))
     = length (split SPLITTER_TEXT title).
Proof.
  split.
  - rewrite <- (join_split SPLITTER_TEXT title) at 2. unfold fitTitleText.
    apply length_join_le. intros piece. apply fitWord_length.
  - rewrite fitted_words. apply length_map.
Qed.

Ltac octicon_cases :=
  unfold getOcticon, getIssueOpenOrCloseColor,
    getIssueOpenOrCloseColorCSSClass;
  cbv zeta;
  repeat (case_bool_decide; cbn [andb]);
  repeat case_decide.

(** X5: the colour and the CSS class agree: green and [border-green] for the
    state [OPEN], purple and [border-purple] for every other state, and
    nothing else; and the icon agrees with them: the two icons of open
    items come with green, the icons [issue-closed] and [git-merge] come
    with purple. *)
Theorem octicon_agrees_with_colour (githubIssue : GithubIssue) :
  (state githubIssue = "OPEN" ->
   getIssueOpenOrCloseColor githubIssue = "green"
   /\ getIssueOpenOrCloseColorCSSClass githubIssue = "border-green")
  /\ (state githubIssue <> "OPEN" ->
      getIssueOpenOrCloseColor githubIssue = "purple"
      /\ getIssueOpenOrCloseColorCSSClass githubIssue = "border-purple")
  /\ (getIssueOpenOrCloseColor githubIssue = "green"
      <-> state githubIssue = "OPEN")
  /\ (getIssueOpenOrCloseColorCSSClass githubIssue = "border-green"
      <-> state githubIssue = "OPEN")
  /\ (getIssueOpenOrCloseColor githubIssue = "purple"
      <-> state githubIssue <> "OPEN")
  /\ (getIssueOpenOrCloseColorCSSClass githubIssue = "border-purple"
      <-> state githubIssue <> "OPEN")
  /\ (getOcticon githubIssue = "issue-opened"
      \/ getOcticon githubIssue = "git-pull-request" ->
      state githubIssue = "OPEN"
      /\ getIssueOpenOrCloseColor githubIssue = "green"
      /\ getIssueOpenOrCloseColorCSSClass githubIssue = "border-green")
  /\ (getOcticon githubIssue = "issue-closed"
      \/ getOcticon githubIssue = "git-merge" ->
      state githubIssue <> "OPEN"
      /\ getIssueOpenOrCloseColor githubIssue = "purple"
      /\ getIssueOpenOrCloseColorCSSClass githubIssue = "border-purple").
Proof.
  octicon_cases; repeat split; intros;
    repeat match goal with
           | H : _ \/ _ |- _ => destruct H
           end;
    try tauto; try congruence; try discriminate.
Qed.

(** X6: the icon of last resort, [circle], is shown exactly for an item that
    is neither an issue nor a pull request, and for an issue whose state
    is neither [OPEN] nor [CLOSED]; a pull request never gets it, whatever
    its state: every pull request that is not open is shown as merged. *)
Theorem octicon_circle_iff (githubIssue : GithubIssue) :
  (getOcticon githubIssue = "circle"
   <-> issueOrPr githubIssue <> "PullRequest"
       /\ ~ (issueOrPr githubIssue = "Issue"
             /\ (state githubIssue = "OPEN"
                 \/ state githubIssue = "CLOSED")))
  /\ (issueOrPr githubIssue = "PullRequest" ->
      state githubIssue <> "OPEN" ->
      getOcticon githubIssue = "git-merge").
Proof.
  octicon_cases; repeat split; intros; try tauto; try congruence;
    try discriminate; intuition congruence.
Qed.

End CardDisplayProperties.

(** * Properties of the header's navigation *)

Section HeaderNavProperties.
Import Text JsString HeaderNav.

Lemma on_router_events_app (es : list router_event) (e : router_event)
    (t : tracker) :
  on_router_events (es ++ [e]) t = on_router_event e (on_router_events es t).
Proof. unfold on_router_events. rewrite fold_left_app. reflexivity. Qed.

Lemma recognized_app (es es' : list router_event) :
  recognized (es ++ es') = recognized es ++ recognized es'.
Proof.
  induction es as [| [url after |] es IH]; cbn; [reflexivity | |];
    rewrite IH; reflexivity.
Qed.

Lemma tracker_follows (es : list router_event) :
  buffered (on_router_events es constructed)
  = nth_error (rev (recognized es)) 0
  /\ prevUrl (on_router_events es constructed)
     = nth_error (rev (recognized es)) 1.
Proof.
  induction es as [| e es [IHb IHp]] using rev_ind; [split; reflexivity |].
  rewrite on_router_events_app, recognized_app.
  destruct e as [url after |].
  - cbn [recognized]. rewrite rev_app_distr.
    change (rev [after] ++ rev (recognized es))
      with (after :: rev (recognized es)).
    change (nth_error (after :: rev (recognized es)) 0) with (Some after).
    change (nth_error (after :: rev (recognized es)) 1)
      with (nth_error (rev (recognized es)) 0).
    unfold on_router_event.
    destruct (buffered (on_router_events es constructed)) as [previous |]
      eqn:Hbuffered; cbn [buffered prevUrl].
    + split; [reflexivity | exact IHb].
    + split; [reflexivity |]. rewrite IHp, <- IHb.
      destruct (rev (recognized es)); [reflexivity | discriminate].
  - cbn [recognized on_router_event]. rewrite app_nil_r. split; assumption.
Qed.

(** X7: after any events of the router, [prevUrl] is the [urlAfterRedirects]
    of the last recognized route but one, and [undefined] as long as fewer
    than two routes were recognized; events of other kinds change
    nothing. *)
Theorem prevUrl_is_route_before_last (es : list router_event) :
  prevUrl (on_router_events es constructed)
  = nth_error (rev (recognized es)) 1
  /\ ((length (recognized es) < 2)%nat ->
      prevUrl (on_router_events es constructed) = None)
  /\ forall t, on_router_event OtherRouterEvent t = t.
Proof.
  destruct (tracker_follows es) as [_ Hprev].
  split; [exact Hprev |]. split; [| reflexivity].
  intros Hfew. rewrite Hprev. apply nth_error_None.
  rewrite length_rev. lia.
Qed.

(** X8: [goBack] makes exactly one of its two calls: it sends the router to
    the current phase exactly when the route before the last one was the
    new-issue page of the current phase, and goes back in the history in
    every other case, in particular as long as fewer than two routes were
    recognized. *)
Theorem goBack_skips_new_issue_page
    (es : list router_event) (currentPhase : Phase) :
  let previous := prevUrl (on_router_events es constructed) in
  let newIssuePage :=
    lit "/" ++ phase_text currentPhase ++ lit "/issues/new" in
  (nth_error (rev (recognized es)) 1 = Some newIssuePage ->
   goBack previous currentPhase = Router_navigateByUrl currentPhase)
  /\ (nth_error (rev (recognized es)) 1 <> Some newIssuePage ->
      goBack previous currentPhase = Location_back)
  /\ ((length (recognized es) < 2)%nat ->
      goBack previous currentPhase = Location_back).
Proof.
  cbv zeta. destruct (prevUrl_is_route_before_last es) as (Hprev & Hfew & _).
  unfold goBack. split; [| split].
  - intros Hpage. rewrite Hprev, Hpage, decide_True by reflexivity. reflexivity.
  - intros Hother. rewrite Hprev, decide_False by exact Hother. reflexivity.
  - intros Hshort. rewrite (Hfew Hshort), decide_False by discriminate.
    reflexivity.
Qed.

Lemma first_occurrence (c : code_unit) (s : js_string) :
  ~ In c s \/
  exists before after, s = before ++ c :: after /\ ~ In c before.
Proof.
  induction s as [| d s' IH]; [left; intros [] |].
  destruct (N.eqb_spec d c) as [-> | Hother].
  - right. exists [], s'. split; [reflexivity | intros []].
  - destruct IH as [Hfree | (before & after & -> & Hfree)].
    + left. intros [Heq | Hin]; [congruence | exact (Hfree Hin)].
    + right. exists (d :: before), after. split; [reflexivity |].
      intros [Heq | Hin]; [congruence | exact (Hfree Hin)].
Qed.

Variable activityDashboard : Phase.

Local Abbreviation viewBrowser := (viewBrowser activityDashboard).

Lemma viewBrowser_list_page (currentPhase : Phase) (url repoURL : js_string) :
  currentPhase <> activityDashboard ->
  ~ In SLASH (tail url) ->
  viewBrowser currentPhase url repoURL
  = lit "https://github.com/" ++ repoURL ++ ISSUE_FILTER.
Proof.
  intros Hphase Hfree. unfold HeaderNav.viewBrowser.
  rewrite decide_False by exact Hphase. cbv zeta.
  change 1 with (Z.of_nat 1). rewrite substring_from_suffix.
  change (skipn 1 url) with (tail url).
  rewrite (indexOf_absent _ _ Hfree). reflexivity.
Qed.

Lemma viewBrowser_inner_page (currentPhase : Phase)
    (c : code_unit) (page rest repoURL : js_string) :
  currentPhase <> activityDashboard ->
  ~ In SLASH page ->
  viewBrowser currentPhase (c :: page ++ SLASH :: rest) repoURL
  = lit "https://github.com/" ++ repoURL ++ SLASH :: rest.
Proof.
  intros Hphase Hfree. unfold HeaderNav.viewBrowser.
  rewrite decide_False by exact Hphase. cbv zeta.
  change 1 with (Z.of_nat 1). rewrite substring_from_suffix.
  change (skipn 1 (c :: page ++ SLASH :: rest)) with (page ++ SLASH :: rest).
  rewrite (indexOf_first _ _ _ Hfree).
  destruct (Z.ltb_spec (Z.of_nat (length page)) 0); [lia |].
  rewrite substring_from_suffix, skipn_app, skipn_all, Nat.sub_diag.
  reflexivity.
Qed.

(** X9: on the activity dashboard [viewBrowser] opens the fixed pulse page.
    In every other phase the link is [https://github.com/], the
    repository, and a path that starts with a slash: the filtered issue
    list when [router.url] has no slash after its first character, and
    otherwise the rest of [router.url] from that slash on, the first
    segment being dropped. *)
Theorem viewBrowser_link (currentPhase : Phase) (url repoURL : js_string) :
  (currentPhase = activityDashboard ->
   viewBrowser currentPhase url repoURL
   = lit "https://github.com/gycgabriel/WATcher-test/pulse")
  /\ (currentPhase <> activityDashboard ->
      (~ In SLASH (tail url) ->
       viewBrowser currentPhase url repoURL
       = lit "https://github.com/" ++ repoURL ++ ISSUE_FILTER)
      /\ (forall c page rest,
             url = c :: page ++ SLASH :: rest -> ~ In SLASH page ->
             viewBrowser currentPhase url repoURL
             = lit "https://github.com/" ++ repoURL ++ SLASH :: rest)
      /\ exists issueUrl,
           viewBrowser currentPhase url repoURL
           = lit "https://github.com/" ++ repoURL ++ issueUrl
           /\ head issueUrl = Some SLASH
           /\ (issueUrl = ISSUE_FILTER
               \/ exists before, url = before ++ issueUrl)).
Proof.
  split.
  - intros Hdash. unfold HeaderNav.viewBrowser.
    rewrite decide_True by exact Hdash. reflexivity.
  - intros Hphase. split; [apply viewBrowser_list_page; exact Hphase |].
    split.
    + intros c page rest -> Hfree.
      apply viewBrowser_inner_page; assumption.
    + destruct (first_occurrence SLASH (tail url))
        as [Hfree | (page & rest & Htail & Hfree)].
      * exists ISSUE_FILTER.
        rewrite (viewBrowser_list_page _ _ _ Hphase Hfree). auto.
      * destruct url as [| c url']; [destruct page; discriminate |].
        cbn [tail] in Htail. subst url'.
        exists (SLASH :: rest).
        rewrite (viewBrowser_inner_page _ _ _ _ _ Hphase Hfree).
        split; [reflexivity |]. split; [reflexivity |].
        right. exists (c :: page). reflexivity.
Qed.

End HeaderNavProperties.

(** * More properties of the two components *)

Section MoreHeaderProperties.
Import Header.

Variable Phase_enum : string -> Phase.
Variable getRepository : Phase -> list Repo.

Local Abbreviation routeToSelectedPhase :=
  (routeToSelectedPhase Phase_enum getRepository).

(** X10: however a call of [routeToSelectedPhase] ends, the selected phase is
    the current phase afterwards, so that selecting it again does nothing.
    In particular, when the call threw because the phase has no
    repository, the repeated selection runs none of the resets either. *)
Theorem routeToSelectedPhase_again_does_nothing
    (openPhase : string) (w : World) :
  let switched := fst (routeToSelectedPhase openPhase w) in
  currentPhase switched = Phase_enum openPhase
  /\ routeToSelectedPhase openPhase switched = (switched, Returned).
Proof.
  cbv zeta.
  assert (Hphase :
    currentPhase (fst (routeToSelectedPhase openPhase w))
    = Phase_enum openPhase).
  { destruct (decide (currentPhase w = Phase_enum openPhase)) as [Hsame | Hother].
    - rewrite (routeToSelectedPhase_same _ _ _ _ Hsame). exact Hsame.
    - destruct (getRepository (Phase_enum openPhase)) as [| repo rest] eqn:Hrepo.
      + rewrite (routeToSelectedPhase_throws _ _ _ _ Hother Hrepo). reflexivity.
      + rewrite (routeToSelectedPhase_switches _ _ _ _ _ _ Hother Hrepo).
        cbn [fst]. rewrite switch_world_unfold. reflexivity. }
  split; [exact Hphase |].
  apply routeToSelectedPhase_same. exact Hphase.
Qed.

(** X13: the timers of two calls of [reload] do not know of each other: when
    [reload] is called again [d] milliseconds after a first call, with
    [0 < d < 3000], the timer of the first call enables the trigger 3000
    ms after the first call, that is [3000 - d] ms after the second,
    while the timer of the second call is still pending. *)
Theorem reload_cool_down_cut_short (w : World) (d : N) :
  (0 < d < 3000)%N ->
  let second := reload (advance d (reload w)) in
  let later := advance (3000 - d) second in
  isReloadButtonDisabled second = true
  /\ now second = (now w + d)%N
  /\ now later = (now w + 3000)%N
  /\ isReloadButtonDisabled later = false
  /\ exists h, In (h, (now second + 3000)%N) (timers later).
Proof.
  intros Hd. cbv zeta.
  destruct (advance_fields d (reload w)) as (Hnow1 & Htm1 & _).
  assert (Hnow0 : now (reload w) = now w)
    by (rewrite reload_unfold; reflexivity).
  assert (Hfirst :
    In (S (nextHandle w), (now w + 3000)%N) (timers (advance d (reload w)))).
  { rewrite Htm1. apply filter_In. split.
    - rewrite reload_unfold. cbn [timers]. apply in_or_app. right. left.
      reflexivity.
    - unfold is_due. cbn [snd]. rewrite Hnow0.
      apply negb_true_iff, N.leb_gt. lia. }
  set (first := advance d (reload w)) in *.
  assert (Hnow2 : now (reload first) = (now w + d)%N).
  { rewrite reload_unfold. cbn [now]. rewrite Hnow1, Hnow0. reflexivity. }
  destruct (advance_fields (3000 - d) (reload first))
    as (Hnow3 & Htm3 & _ & _ & Hflag).
  split; [rewrite reload_unfold; reflexivity |].
  split; [exact Hnow2 |].
  split; [rewrite Hnow3, Hnow2; lia |].
  split.
  - rewrite Hflag.
    assert (Hfires :
      In (S (nextHandle w), (now w + 3000)%N)
         (List.filter (is_due (now (reload first) + (3000 - d)))
            (timers (reload first)))).
    { apply filter_In. split.
      - rewrite reload_unfold. cbn [timers]. apply in_or_app. left.
        exact Hfirst.
      - unfold is_due. cbn [snd]. rewrite Hnow2. apply N.leb_le. lia. }
    destruct (List.filter (is_due (now (reload first) + (3000 - d)))
                (timers (reload first))); [destruct Hfires | reflexivity].
  - exists (S (nextHandle first)). rewrite Htm3. apply filter_In. split.
    + rewrite reload_unfold. cbn [timers now]. apply in_or_app. right. left.
      reflexivity.
    + unfold is_due. cbn [snd]. apply negb_true_iff, N.leb_gt. lia.
Qed.

End MoreHeaderProperties.


Section MoreCardViewProperties.
Import CardView CardViewInvariant.

Variable clone : Phase -> Issue -> Issue.

Local Abbreviation step := (step clone).
Local Abbreviation reachable := (reachable clone).

Lemma live_not_fresh (w : World) (h : handle) (k : subscriber) :
  well_formed w -> subscriptions w !! h = Some k -> h <> nextHandle w.
Proof.
  intros Hwf Hlive. destruct (Hwf h) as [Hold _].
  assert (h < nextHandle w)%nat by (apply Hold; eauto). lia.
Qed.

Lemma pending_in_flight_deleteIssue (w w0 : World) (j : Z) (ev : Event) :
  well_formed w -> pending_in_flight w ->
  issuesPendingDeletion w0 = issuesPendingDeletion w ->
  subscriptions w0 = subscriptions w ->
  nextHandle w0 = nextHandle w ->
  pending_in_flight (deleteIssue j ev w0).
Proof.
  intros Hwf Hinv Hp Hs Hn i b. rewrite deleteIssue_unfold.
  cbn [issuesPendingDeletion subscriptions]. rewrite Hp, Hs, Hn.
  destruct (decide (j = i)) as [-> | Hother].
  - rewrite lookup_insert_eq. intros [= <-]. split; [reflexivity |].
    exists (nextHandle w). apply lookup_insert_eq.
  - rewrite lookup_insert_ne by exact Hother. intros Hpending.
    destruct (Hinv i b Hpending) as (Htrue & h & Hlive).
    split; [exact Htrue |]. exists h.
    rewrite lookup_insert_ne; [exact Hlive |].
    intros Heq. apply (live_not_fresh w h _ Hwf Hlive). congruence.
Qed.

Lemma pending_in_flight_subscribe (w : World) (k : subscriber) :
  well_formed w -> pending_in_flight w ->
  forall i b,
    issuesPendingDeletion w !! i = Some b ->
    b = true /\
    exists h, <[nextHandle w := k]> (subscriptions w) !! h
              = Some (DeleteIssueSubscriber i).
Proof.
  intros Hwf Hinv i b Hpending.
  destruct (Hinv i b Hpending) as (Htrue & h & Hlive).
  split; [exact Htrue |]. exists h.
  rewrite lookup_insert_ne; [exact Hlive |].
  intros Heq. apply (live_not_fresh w h _ Hwf Hlive). congruence.
Qed.

Lemma pending_in_flight_step (e : event) (w : World) :
  well_formed w -> pending_in_flight w -> pending_in_flight (step e w).
Proof.
  intros Hwf Hinv.
  destruct e as [issue ev | issue ev | j ev | j ev | h' res | h' n | p st];
    cbn [CardView.step].
  - rewrite markAsResponded_unfold. intros i b.
    cbn [issuesPendingDeletion subscriptions].
    apply pending_in_flight_subscribe; assumption.
  - rewrite markAsPending_unfold. intros i b.
    cbn [issuesPendingDeletion subscriptions].
    apply pending_in_flight_subscribe; assumption.
  - apply (pending_in_flight_deleteIssue w); auto.
  - exact Hinv.
  - destruct (dialogs w !! h') as [[j ev] |] eqn:Hd.
    + rewrite (dialogClosed_open _ _ _ _ _ Hd).
      destruct (truthy res); [| exact Hinv].
      apply (pending_in_flight_deleteIssue w); auto.
    + rewrite (dialogClosed_unknown _ _ _ Hd). exact Hinv.
  - destruct (subscriptions w !! h') as [[| j] |] eqn:Hs.
    + assert (Hkeep : forall i h,
        subscriptions w !! h = Some (DeleteIssueSubscriber i) ->
        delete h' (subscriptions w) !! h = Some (DeleteIssueSubscriber i)).
      { intros i h Hlive. rewrite lookup_delete_ne; [exact Hlive |].
        intros ->. congruence. }
      destruct n as [u | err |].
      * rewrite (deliver_update_next _ _ _ Hs). exact Hinv.
      * rewrite (deliver_update_error _ _ _ Hs). intros i b Hpending.
        destruct (Hinv i b Hpending) as (Htrue & h & Hlive).
        split; [exact Htrue |]. exists h. apply Hkeep, Hlive.
      * rewrite (deliver_update_complete _ _ Hs). intros i b Hpending.
        destruct (Hinv i b Hpending) as (Htrue & h & Hlive).
        split; [exact Htrue |]. exists h. apply Hkeep, Hlive.
    + assert (Hcleared : forall i b,
        delete j (issuesPendingDeletion w) !! i = Some b ->
        b = true /\
        exists h, delete h' (subscriptions w) !! h
                  = Some (DeleteIssueSubscriber i)).
      { intros i b. destruct (decide (j = i)) as [-> | Hother].
        - rewrite lookup_delete_eq. discriminate.
        - rewrite lookup_delete_ne by exact Hother. intros Hpending.
          destruct (Hinv i b Hpending) as (Htrue & h & Hlive).
          split; [exact Htrue |]. exists h.
          rewrite lookup_delete_ne; [exact Hlive |].
          intros ->. congruence. }
      destruct n as [removed | err |].
      * rewrite (deliver_delete_next _ _ _ _ Hs). exact Hinv.
      * rewrite (deliver_delete_error _ _ _ _ Hs). exact Hcleared.
      * rewrite (deliver_delete_complete _ _ _ Hs). exact Hcleared.
    + rewrite (deliver_closed _ _ _ Hs). exact Hinv.
  - exact Hinv.
Qed.

(** X11: in every world the card view can be in, an identifier that is in
    [issuesPendingDeletion] is marked [true] there and a subscription of
    a [deleteIssue] for that identifier is still live: no card is shown as
    pending deletion without a delete in flight. *)
Theorem pending_means_delete_in_flight (w : World) (i : Z) (b : bool) :
  reachable w ->
  issuesPendingDeletion w !! i = Some b ->
  b = true
  /\ exists h, subscriptions w !! h = Some (DeleteIssueSubscriber i).
Proof.
  intros Hreach. revert i b.
  change (pending_in_flight w).
  induction Hreach as [phase store | e w Hreach IH].
  - intros i b. cbn. rewrite lookup_empty. discriminate.
  - apply pending_in_flight_step; [| exact IH].
    apply (reachable_well_formed clone). exact Hreach.
Qed.

(** X12: a second [deleteIssue] for an identifier that is already pending is
    not held back: a second request is issued and a second subscription
    made.  When the first of the two is resolved the identifier leaves the
    pending set, although the second is still in flight. *)
Theorem deleteIssue_twice_not_deduplicated
    (w : World) (i : Z) (ev ev' : Event) (n : notification Issue) :
  is_terminal n = true ->
  let h := nextHandle w in
  let twice := deleteIssue i ev' (deleteIssue i ev w) in
  let resolved := deliver h n twice in
  delete_requests i twice = S (S (delete_requests i w))
  /\ subscriptions twice !! h = Some (DeleteIssueSubscriber i)
  /\ subscriptions twice !! S h = Some (DeleteIssueSubscriber i)
  /\ issuesPendingDeletion twice !! i = Some true
  /\ issuesPendingDeletion resolved !! i = None
  /\ subscriptions resolved !! S h = Some (DeleteIssueSubscriber i).
Proof.
  intros Hend. cbv zeta.
  assert (Hfirst :
    subscriptions (deleteIssue i ev' (deleteIssue i ev w)) !! nextHandle w
    = Some (DeleteIssueSubscriber i)).
  { rewrite !deleteIssue_unfold. cbn [subscriptions nextHandle].
    rewrite lookup_insert_ne by lia. apply lookup_insert_eq. }
  assert (Hsecond :
    subscriptions (deleteIssue i ev' (deleteIssue i ev w)) !! S (nextHandle w)
    = Some (DeleteIssueSubscriber i)).
  { rewrite !deleteIssue_unfold. cbn [subscriptions nextHandle].
    apply lookup_insert_eq. }
  split; [| split; [exact Hfirst | split; [exact Hsecond | split]]].
  - rewrite !deleteIssue_unfold. unfold delete_requests. cbn [trace].
    rewrite !occurrences_app. unfold occurrences at 2 3. cbn.
    rewrite bool_decide_eq_true_2 by reflexivity. cbn. lia.
  - rewrite !deleteIssue_unfold. cbn [issuesPendingDeletion].
    apply lookup_insert_eq.
  - destruct n as [v | err |]; [discriminate | |].
    + rewrite (deliver_delete_error _ _ _ _ Hfirst).
      cbn [issuesPendingDeletion subscriptions].
      rewrite lookup_delete_eq, lookup_delete_ne by lia. auto.
    + rewrite (deliver_delete_complete _ _ _ Hfirst).
      cbn [issuesPendingDeletion subscriptions].
      rewrite lookup_delete_eq, lookup_delete_ne by lia. auto.
Qed.

End MoreCardViewProperties.

(** * More scenarios *)

Section MoreScenarios.
Import Sample.

(** Record 1 is being deleted. *)
Lemma pending_means_delete_in_flight_witness :
  exists h,
    CardView.subscriptions (CardView.deleteIssue 1 7%nat cards) !! h
    = Some (CardView.DeleteIssueSubscriber 1).
Proof.
  assert (Hreach :
    CardView.reachable copy (CardView.deleteIssue 1 7%nat cards)).
  { apply (CardView.reachable_step copy (CardView.CallDeleteIssue 1 7%nat)).
    apply CardView.reachable_init. }
  assert (Hpending :
    CardView.issuesPendingDeletion (CardView.deleteIssue 1 7%nat cards) !! 1
    = Some true) by reflexivity.
  exact (proj2 (pending_means_delete_in_flight copy _ 1 true Hreach Hpending)).
Defined.

(** Record 1 is deleted twice; the first request fails. *)
Lemma deleteIssue_twice_not_deduplicated_witness :
  let twice :=
    CardView.deleteIssue 1 8%nat (CardView.deleteIssue 1 7%nat cards) in
  CardView.delete_requests 1 twice = 2%nat
  /\ CardView.issuesPendingDeletion
       (CardView.deliver 0%nat (Error "offline") twice) !! 1 = None
  /\ CardView.subscriptions
       (CardView.deliver 0%nat (Error "offline") twice) !! 1%nat
     = Some (CardView.DeleteIssueSubscriber 1).
Proof.
  cbv zeta.
  destruct (deleteIssue_twice_not_deduplicated cards 1 7%nat 8%nat
              (Error "offline") eq_refl)
    as (Htwo & _ & _ & _ & Hcleared & Hlive).
  split; [exact Htwo | split; [exact Hcleared | exact Hlive]].
Defined.

(** A second reload one second after the first. *)
Lemma reload_cool_down_cut_short_witness :
  Header.isReloadButtonDisabled
    (Header.advance 2000
       (Header.reload (Header.advance 1000 (Header.reload header))))
  = false.
Proof.
  assert (Hd : (0 < 1000 < 3000)%N) by lia.
  exact (proj1 (proj2 (proj2 (proj2
           (reload_cool_down_cut_short header 1000 Hd))))).
Defined.

(** From the page of issue 5 the browser opens issue 5. *)
Lemma viewBrowser_link_witness :
  HeaderNav.viewBrowser (Some "activityDashboard") (Some "issuesViewer")
    (JsString.lit "/issuesViewer/issues/5") (JsString.lit "CATcher-org/WATcher")
  = JsString.lit "https://github.com/CATcher-org/WATcher/issues/5".
Proof.
  destruct (viewBrowser_link (Some "activityDashboard") (Some "issuesViewer")
              (JsString.lit "/issuesViewer/issues/5")
              (JsString.lit "CATcher-org/WATcher"))
    as (_ & Hother).
  assert (Hphase : Some "issuesViewer" <> Some "activityDashboard")
    by discriminate.
  destruct (Hother Hphase) as (_ & Hinner & _).
  apply (Hinner 47%N (JsString.lit "issuesViewer") (JsString.lit "issues/5")).
  - reflexivity.
  - intros Hin. cbn in Hin. intuition discriminate.
Defined.

(** The user leaves the form for a new issue: [goBack] leads to the
    phase, not back into the form. *)
Lemma goBack_skips_new_issue_page_witness :
  let es :=
    [HeaderNav.RoutesRecognized (JsString.lit "/issuesViewer/issues/new")
       (JsString.lit "/issuesViewer/issues/new");
     HeaderNav.OtherRouterEvent;
     HeaderNav.RoutesRecognized (JsString.lit "/issuesViewer")
       (JsString.lit "/issuesViewer")] in
  HeaderNav.goBack
    (HeaderNav.prevUrl (HeaderNav.on_router_events es HeaderNav.constructed))
    (Some "issuesViewer")
  = HeaderNav.Router_navigateByUrl (Some "issuesViewer").
Proof.
  cbv zeta.
  apply (proj1 (goBack_skips_new_issue_page _ (Some "issuesViewer"))).
  reflexivity.
Defined.

End MoreScenarios.

(** * The phase switch and the card view *)

Section PhaseSwitch.

Variable Phase_enum : string -> Phase.
Variable getRepository : Phase -> list Header.Repo.

Local Abbreviation routeToSelectedPhase :=
  (App.routeToSelectedPhase Phase_enum getRepository).







End PhaseSwitch.


